(** * tailscalesd: Prometheus HTTP service discovery for Tailscale

    A shallow embedding of [tailscalesd.go]: the target descriptor, the two
    filters of the default pipeline, [translate] with its tag fan-out, and
    the discovery handler, together with the part of Go's [net] package the
    address filter relies on. *)

From Stdlib Require Import ZArith Ascii String.
From Stdlib.Strings Require Import Byte.
From stdpp Require Import gmap strings list fin_maps.

Local Open Scope string_scope.
Local Open Scope list_scope.
Local Open Scope Z_scope.

(** ** Go's [net] package: [ParseIP], [IP.To4], [IP.String]

    These are library functions, not code of this repository.  The
    definitions follow the Go standard library ([net/ip.go] and the parser
    in [net/netip/netip.go] it delegates to), loop by loop. *)
Module Net.

(** An [IP] is a slice of bytes: 4 of them for the short IPv4 form, 16 for
    IPv6 and for IPv4 in its mapped form. *)
Definition IP : Type := list byte.

Definition IPv4len : nat := 4.
Definition IPv6len : nat := 16.

(** The numeric value of a byte of a string. *)
Definition code (c : ascii) : Z := Z.of_N (N_of_ascii c).

(** The conversion [uint8(v)], which keeps the low eight bits. *)
Definition uint8 (v : Z) : byte :=
  byte_of_ascii (ascii_of_N (Z.to_N (v mod 256))).

Definition byte_val (b : byte) : Z := Z.of_N (Byte.to_N b).

Definition is_digit (c : ascii) : bool :=
  (code "0"%char <=? code c) && (code c <=? code "9"%char).

Definition is_dot (c : ascii) : bool := code c =? code "."%char.
Definition is_colon (c : ascii) : bool := code c =? code ":"%char.
Definition is_percent (c : ascii) : bool := code c =? code "%"%char.

Definition is_empty (s : string) : bool :=
  match s with EmptyString => true | String _ _ => false end.

(** [parseIPv4Fields]: the loop over the bytes of [s], with the loop's
    variables as arguments.  [prev] is [s[i-1]] ([None] when [i = 0]);
    the remaining string is empty after the head exactly when
    [i = len(s)-1].  The result is the [fields] slice as the function
    leaves it, or [None] for an error. *)
Fixpoint parseIPv4Fields_loop (prev : option ascii) (s : string)
    (val digLen : Z) (pos : nat) (fields : list byte) : option (list byte) :=
  match s with
  | EmptyString =>
      if (pos <? 3)%nat then None (* IPv4 address too short *)
      else Some (<[3%nat := uint8 val]> fields)
  | String c s' =>
      if is_digit c then
        if (digLen =? 1) && (val =? 0) then None (* leading zero *)
        else
          let val := val * 10 + code c - code "0"%char in
          let digLen := digLen + 1 in
          if val >? 255 then None (* value >255 *)
          else parseIPv4Fields_loop (Some c) s' val digLen pos fields
      else if is_dot c then
        if match prev with None => true | Some p => is_dot p end
           || is_empty s'
        then None (* field must have at least one digit *)
        else if (pos =? 3)%nat then None (* IPv4 address too long *)
        else parseIPv4Fields_loop (Some c) s' 0 0 (S pos)
               (<[pos := uint8 val]> fields)
      else None (* unexpected character *)
  end.

Definition parseIPv4Fields (s : string) (fields : list byte)
    : option (list byte) :=
  parseIPv4Fields_loop None s 0 0 0%nat fields.

(** [Addr.As16] of an IPv4 address: the IPv4-mapped IPv6 form. *)
Definition v4InV6Prefix : list byte :=
  replicate 10 x00 ++ [xff; xff].

Definition parseIPv4 (s : string) : option (list byte) :=
  match parseIPv4Fields s (replicate 4 x00) with
  | None => None
  | Some fields => Some (v4InV6Prefix ++ fields)
  end.

(** The value of a hexadecimal digit, [None] for any other byte. *)
Definition hexval (c : ascii) : option Z :=
  if (code "0"%char <=? code c) && (code c <=? code "9"%char)
  then Some (code c - code "0"%char)
  else if (code "a"%char <=? code c) && (code c <=? code "f"%char)
  then Some (code c - code "a"%char + 10)
  else if (code "A"%char <=? code c) && (code c <=? code "F"%char)
  then Some (code c - code "A"%char + 10)
  else None.

(** The inner loop of [parseIPv6] that reads one group of hex digits:
    it stops at the first other byte and yields the number of digits
    read, their value and the rest of the string ([s[off:]]). *)
Fixpoint hexGroup (s : string) (off acc : Z) : option (Z * Z * string) :=
  match s with
  | EmptyString => Some (off, acc, s)
  | String c s' =>
      match hexval c with
      | None => Some (off, acc, s)
      | Some v =>
          let acc := (Z.shiftl acc 4 + v) mod 2 ^ 32 in
          if off >? 3 then None (* more than 4 digits in group *)
          else if acc >? 65535 then None (* >= 2^16 *)
          else hexGroup s' (off + 1) acc
      end
  end.

(** [ip[i:i+n]] and the write-back of such a slice into its array. *)
Definition slice (ip : list byte) (i n : nat) : list byte :=
  take n (drop i ip).

Definition splice (ip : list byte) (i : nat) (part : list byte)
    : list byte :=
  take i ip ++ part ++ drop (i + length part) ip.

(** State of the main loop of [parseIPv6] when it is left. *)
Record v6state : Type := V6 {
  v6_s : string;
  v6_i : nat;
  v6_ellipsis : option nat; (* [None] is the code's [-1] *)
  v6_ip : list byte
}.

(** The loop [for i < 16 { ... }].  Every round that does not leave the
    loop adds 2 to [i], so [n] rounds are enough when [16 <= i + 2*n]. *)
Fixpoint parseIPv6_loop (n : nat) (s : string) (i : nat)
    (ellipsis : option nat) (ip : list byte) : option v6state :=
  if negb (i <? 16)%nat then Some (V6 s i ellipsis ip) else
  match n with
  | O => None
  | S n' =>
    match hexGroup s 0 0 with
    | None => None
    | Some (off, acc, rest) =>
      if off =? 0 then None (* no digits found *)
      else if match rest with String c _ => is_dot c | _ => false end then
        (* trailing IPv4 *)
        if match ellipsis with None => negb (i =? 12)%nat | _ => false end
        then None
        else if (16 <? i + 4)%nat then None
        else
          match parseIPv4Fields s (slice ip i 4) with
          | None => None
          | Some part => Some (V6 "" (i + 4) ellipsis (splice ip i part))
          end
      else
        let ip := <[i := uint8 (Z.shiftr acc 8)]> ip in
        let ip := <[S i := uint8 acc]> ip in
        let i := (i + 2)%nat in
        match rest with
        | EmptyString => Some (V6 rest i ellipsis ip)
        | String c s1 =>
            if negb (is_colon c) then None (* want colon *)
            else
              match s1 with
              | EmptyString => None (* colon must be followed by more *)
              | String c1 s2 =>
                  if is_colon c1 then
                    match ellipsis with
                    | Some _ => None (* multiple :: *)
                    | None =>
                        if is_empty s2 then Some (V6 s2 i (Some i) ip)
                        else parseIPv6_loop n' s2 i (Some i) ip
                    end
                  else parseIPv6_loop n' s1 i ellipsis ip
              end
        end
    end
  end.

(** [IndexByteString(s, '%')] and the split it is used for. *)
Fixpoint splitZone (s : string) : string * option string :=
  match s with
  | EmptyString => (EmptyString, None)
  | String c s' =>
      if is_percent c then (EmptyString, Some s')
      else let '(a, z) := splitZone s' in (String c a, z)
  end.

(** The expansion of the ellipsis: the bytes [ip[ellipsis:i]] move to the
    end of the array and the gap is cleared. *)
Definition expandEllipsis (ip : list byte) (i ellipsis : nat) : list byte :=
  let n := (16 - i)%nat in
  let moved :=
    foldl (fun a j => match a !! j with
                      | Some b => <[(j + n)%nat := b]> a
                      | None => a
                      end)
          ip (reverse (seq ellipsis (i - ellipsis))) in
  foldl (fun a j => <[j := x00]> a) moved (seq ellipsis n).

(** [parseIPv6]: the 16 bytes and the zone. *)
Definition parseIPv6 (input : string) : option (list byte * string) :=
  let '(s, z) := splitZone input in
  match z with
  | Some EmptyString => None (* zone must be a non-empty string *)
  | _ =>
    let zone := default "" z in
    let ip := replicate 16 x00 in
    let '(s, ellipsis, only) :=
      match s with
      | String c (String c1 s2) =>
          if is_colon c && is_colon c1
          then (s2, Some 0%nat, is_empty s2)
          else (s, None, false)
      | _ => (s, None, false)
      end in
    if only then Some (ip, zone) (* IPv6Unspecified *)
    else
      match parseIPv6_loop 8 s 0 ellipsis ip with
      | None => None
      | Some st =>
          if negb (is_empty (v6_s st)) then None (* trailing garbage *)
          else if (v6_i st <? 16)%nat then
            match v6_ellipsis st with
            | None => None (* address string too short *)
            | Some e => Some (expandEllipsis (v6_ip st) (v6_i st) e, zone)
            end
          else
            match v6_ellipsis st with
            | Some _ => None (* :: must expand to at least one field *)
            | None => Some (v6_ip st, zone)
            end
      end
  end.

(** The first of the bytes ['.'], [':'] and ['%'] in [s], which decides
    how [ParseAddr] reads it. *)
Fixpoint firstMark (s : string) : option ascii :=
  match s with
  | EmptyString => None
  | String c s' =>
      if is_dot c || is_colon c || is_percent c then Some c
      else firstMark s'
  end.

(** [netip.ParseAddr], as 16 bytes and a zone. *)
Definition ParseAddr (s : string) : option (list byte * string) :=
  match firstMark s with
  | Some c =>
      if is_dot c then
        match parseIPv4 s with
        | Some ip => Some (ip, "")
        | None => None
        end
      else if is_colon c then parseIPv6 s
      else None (* missing IPv6 address *)
  | None => None (* unable to parse IP *)
  end.

(** [net.ParseIP]: [None] is the nil IP.  A zone is refused. *)
Definition ParseIP (s : string) : option IP :=
  match ParseAddr s with
  | Some (ip, zone) => if is_empty zone then Some ip else None
  | None => None
  end.

Definition isZeros (p : list byte) : bool :=
  forallb (fun b => byte_val b =? 0) p.

(** [IP.To4]: the 4-byte form of an IPv4 address, [None] (nil) when the
    address is not an IPv4 address. *)
Definition To4 (ip : IP) : option IP :=
  if (length ip =? IPv4len)%nat then Some ip
  else if (length ip =? IPv6len)%nat
          && isZeros (slice ip 0 10)
          && (byte_val (default x00 (ip !! 10%nat)) =? 255)
          && (byte_val (default x00 (ip !! 11%nat)) =? 255)
  then Some (slice ip 12 4)
  else None.

Definition digits : string := "0123456789abcdef".

Definition digit (x : Z) : string :=
  match String.get (Z.to_nat x) digits with
  | Some c => String c EmptyString
  | None => EmptyString
  end.

(** [appendDecimal]: the decimal form of a byte, without leading zeros. *)
Definition appendDecimal (b : string) (x : byte) : string :=
  let x := byte_val x in
  let b := if x >=? 100 then b +:+ digit (x / 100) else b in
  let b := if x >=? 10 then b +:+ digit (x / 10 mod 10) else b in
  b +:+ digit (x mod 10).

(** [appendHex]: a 16-bit group in lower-case hex, without leading zeros. *)
Definition appendHex (b : string) (x : Z) : string :=
  let b := if x >=? 4096 then b +:+ digit (Z.shiftr x 12) else b in
  let b := if x >=? 256 then b +:+ digit (Z.land (Z.shiftr x 8) 15) else b in
  let b := if x >=? 16 then b +:+ digit (Z.land (Z.shiftr x 4) 15) else b in
  b +:+ digit (Z.land x 15).

(** [Addr.string4]: dotted decimal. *)
Definition string4 (a b c d : byte) : string :=
  let s := appendDecimal "" a in
  let s := appendDecimal (s +:+ ".") b in
  let s := appendDecimal (s +:+ ".") c in
  appendDecimal (s +:+ ".") d.

(** The [i]-th 16-bit group of a 16-byte address. *)
Definition v6u16 (ip : list byte) (i : nat) : Z :=
  byte_val (default x00 (ip !! (2 * i)%nat)) * 256
  + byte_val (default x00 (ip !! (2 * i + 1)%nat)).

(** [for j < 8 && ip.v6u16(j) == 0 { j++ }] *)
Fixpoint zeroRun (n : nat) (ip : list byte) (j : nat) : nat :=
  match n with
  | O => j
  | S n' =>
      if (j <? 8)%nat && (v6u16 ip j =? 0) then zeroRun n' ip (S j) else j
  end.

(** The longest run of two or more zero groups, the leftmost of equals;
    [(255, 255)] when there is none. *)
Definition zeroSpan (ip : list byte) : nat * nat :=
  foldl (fun '(zeroStart, zeroEnd) i =>
           let j := zeroRun 8 ip i in
           let l := (j - i)%nat in
           if (2 <=? l)%nat && (zeroEnd - zeroStart <? l)%nat
           then (i, j) else (zeroStart, zeroEnd))
        (255%nat, 255%nat) (seq 0 8).

Fixpoint appendTo6_loop (n : nat) (ip : list byte) (zeroStart zeroEnd : nat)
    (i : nat) (ret : string) : string :=
  match n with
  | O => ret
  | S n' =>
      if negb (i <? 8)%nat then ret
      else if (i =? zeroStart)%nat then
        let ret := ret +:+ "::" in
        let i := zeroEnd in
        if (8 <=? i)%nat then ret
        else appendTo6_loop n' ip zeroStart zeroEnd (S i)
               (appendHex ret (v6u16 ip i))
      else
        let ret := if (0 <? i)%nat then ret +:+ ":" else ret in
        appendTo6_loop n' ip zeroStart zeroEnd (S i)
          (appendHex ret (v6u16 ip i))
  end.

(** [Addr.string6] without a zone. *)
Definition string6 (ip : list byte) : string :=
  let '(zeroStart, zeroEnd) := zeroSpan ip in
  appendTo6_loop 9 ip zeroStart zeroEnd 0 "".

(** [hexString]: two lower-case hex digits per byte. *)
Definition hexString (b : list byte) : string :=
  foldl (fun s x => s +:+ digit (Z.shiftr (byte_val x) 4)
                      +:+ digit (Z.land (byte_val x) 15)) "" b.

(** [IP.String]. *)
Definition IP_String (ip : IP) : string :=
  if (length ip =? 0)%nat then "<nil>"
  else if negb (length ip =? IPv4len)%nat && negb (length ip =? IPv6len)%nat
  then "?" +:+ hexString ip
  else
    match To4 ip with
    | Some [a; b; c; d] => string4 a b c d
    | _ => string6 ip
    end.

End Net.

(** ** The data model *)

(** Modelled from the spec: the [Device] type, which [translate] reads and
    which is declared in another file of the package.  The fields are those
    of the spec's data model, in its order. *)
Record Device : Type := {
  Addresses : list string;
  API : string;
  Authorized : bool;
  ClientVersion : string;
  Hostname : string;
  ID : string;
  Name : string;
  OS : string;
  Tags : list string;
  Tailnet : string
}.

(** [TargetDescriptor] as Prometheus expects it.  A Go map can be nil, and
    [filterEmpty] tells the nil map apart: [None] is the nil map.  A slice
    of length 0 is the empty list, be it nil or not: the code only ranges
    over slices, appends to them and takes their length. *)
Record TargetDescriptor : Type := {
  Targets : list string;
  Labels : option (gmap string string)
}.

Definition LabelMetaAPI : string := "__meta_tailscale_api".
Definition LabelMetaDeviceAuthorized : string :=
  "__meta_tailscale_device_authorized".
Definition LabelMetaDeviceClientVersion : string :=
  "__meta_tailscale_device_client_version".
Definition LabelMetaDeviceHostname : string :=
  "__meta_tailscale_device_hostname".
Definition LabelMetaDeviceID : string := "__meta_tailscale_device_id".
Definition LabelMetaDeviceName : string := "__meta_tailscale_device_name".
Definition LabelMetaDeviceOS : string := "__meta_tailscale_device_os".
Definition LabelMetaDeviceTag : string := "__meta_tailscale_device_tag".
Definition LabelMetaTailnet : string := "__meta_tailscale_tailnet".

(** ** The filters *)

(** The body of the loop of [filterEmpty], for one entry of the map. *)
Definition filterEmpty_step (k v : string) (filtered : gmap string string)
    : gmap string string :=
  if bool_decide (k = "" ∨ v = "") then filtered else <[k := v]> filtered.

(** [filterEmpty] removes entries in a map which have either an empty key or
    empty value.  The nil map is returned as it is. *)
Definition filterEmpty (m : option (gmap string string))
    : option (gmap string string) :=
  match m with
  | None => None
  | Some m => Some (map_fold filterEmpty_step ∅ m)
  end.

Definition filter : Type := TargetDescriptor → TargetDescriptor.

(** The body of the loop of [filterIPv6Addresses], for one target. *)
Definition filterIPv6Addresses_step (targets : list string) (target : string)
    : list string :=
  match Net.ParseIP target with
  | None => targets (* not a valid IP address of any version *)
  | Some ip =>
      match Net.To4 ip with
      | Some ipv4 => targets ++ [Net.IP_String ipv4]
      | None => targets
      end
  end.

Definition filterIPv6Addresses : filter := fun td =>
  let targets := foldl filterIPv6Addresses_step [] (Targets td) in
  {| Targets := targets; Labels := Labels td |}.

Definition filterEmptyLabels : filter := fun td =>
  {| Targets := Targets td; Labels := filterEmpty (Labels td) |}.

(** ** [translate] *)

(** [fmt.Sprint] of a boolean. *)
Definition Sprint_bool (b : bool) : string := if b then "true" else "false".

(** The descriptor [translate] starts from for a device: all labels are
    added here, except for tags. *)
Definition baseTarget (d : Device) : TargetDescriptor :=
  {| Targets := Addresses d;
     Labels := Some (list_to_map [
       (LabelMetaAPI, API d);
       (LabelMetaDeviceAuthorized, Sprint_bool (Authorized d));
       (LabelMetaDeviceClientVersion, ClientVersion d);
       (LabelMetaDeviceHostname, Hostname d);
       (LabelMetaDeviceID, ID d);
       (LabelMetaDeviceName, Name d);
       (LabelMetaDeviceOS, OS d);
       (LabelMetaTailnet, Tailnet d)]) |}.

(** [for _, filter := range filters { target = filter(target) }] *)
Definition applyFilters (filters : list filter) (target : TargetDescriptor)
    : TargetDescriptor :=
  foldl (fun target (f : filter) => f target) target filters.

(** The fresh map a fan-out copy gets: the entries of [target.Labels]
    (none when that map is nil), then the tag. *)
Definition tagLabels (labels : option (gmap string string)) (t : string)
    : gmap string string :=
  let copy :=
    match labels with
    | None => ∅
    | Some m =>
        map_fold (fun k v (lt : gmap string string) => <[k := v]> lt) ∅ m
    end in
  <[LabelMetaDeviceTag := t]> copy.

(** The body of the outer loop of [translate]: what one device appends to
    [found]. *)
Definition translate_step (filters : list filter)
    (found : list TargetDescriptor) (d : Device) : list TargetDescriptor :=
  let target := applyFilters filters (baseTarget d) in
  if (length (Tags d) =? 0)%nat then found ++ [target]
  else
    foldl (fun found t =>
             let lt := {| Targets := Targets target;
                          Labels := Some (tagLabels (Labels target) t) |} in
             found ++ [lt])
          found (Tags d).

(** [translate] Devices to Prometheus TargetDescriptor. *)
Definition translate (devices : list Device) (filters : list filter)
    : list TargetDescriptor :=
  foldl (translate_step filters) [] devices.

(** The filters [Export] installs. *)
Definition exportFilters : list filter :=
  [filterEmptyLabels; filterIPv6Addresses].


(** ** Definitions for the statements

    What the loops of the code compute, in closed form. *)

(** An entry [filterEmpty] keeps. *)
Definition kept (kv : string * string) : Prop := kv.1 ≠ "" ∧ kv.2 ≠ "".

Global Instance kept_dec kv : Decision (kept kv) := and_dec _ _.

(** The descriptors of one device, given the filtered descriptor. *)
Definition fanOut (target : TargetDescriptor) (tags : list string)
    : list TargetDescriptor :=
  match tags with
  | [] => [target]
  | _ => (fun t => {| Targets := Targets target;
                      Labels := Some (tagLabels (Labels target) t) |}) <$> tags
  end.

(** What the address filter turns one target into: nothing when it does not
    parse or is not an IPv4 address, else its dotted decimal form. *)
Definition normalize (target : string) : option string :=
  match Net.ParseIP target with
  | None => None
  | Some ip =>
      match Net.To4 ip with
      | Some ipv4 => Some (Net.IP_String ipv4)
      | None => None
      end
  end.

(** The decimal form of a byte. *)
Definition decimal (x : byte) : string := Net.appendDecimal "" x.

(** The run of the loop of [parseIPv4Fields] over the digits of one
    octet: the loop's [s[i-1]], [val] and [digLen] after them. *)
Fixpoint scanOctet (s : string) (prev : option ascii) (val digLen : Z)
    : option (option ascii * Z * Z) :=
  match s with
  | EmptyString => Some (prev, val, digLen)
  | String c s' =>
      if Net.is_digit c then
        if (digLen =? 1) && (val =? 0) then None
        else
          let val := val * 10 + Net.code c - Net.code "0"%char in
          if val >? 255 then None
          else scanOctet s' (Some c) val (digLen + 1)
      else None
  end.

(** The check that the digits of a byte read back as the byte. *)
Definition octet_ok (x : byte) : bool :=
  match scanOctet (decimal x) None 0 0 with
  | Some (Some c, v, _) => (v =? Net.byte_val x) && Net.is_digit c
  | _ => false
  end.

(** [td.Labels[k]], with its presence flag: nothing is found in a nil
    map. *)
Definition lookupLabel (td : TargetDescriptor) (k : string) : option string :=
  match Labels td with
  | None => None
  | Some m => m !! k
  end.

(** The keys of the labels set from the fields of a device. *)
Definition fixedLabels : list string :=
  [LabelMetaAPI; LabelMetaDeviceAuthorized; LabelMetaDeviceClientVersion;
   LabelMetaDeviceHostname; LabelMetaDeviceID; LabelMetaDeviceName;
   LabelMetaDeviceOS; LabelMetaTailnet].

(** The labels [translate] sets from the fields of a device, as pairs. *)
Definition fieldLabels (d : Device) : list (string * string) :=
  [(LabelMetaAPI, API d);
   (LabelMetaDeviceAuthorized, Sprint_bool (Authorized d));
   (LabelMetaDeviceClientVersion, ClientVersion d);
   (LabelMetaDeviceHostname, Hostname d);
   (LabelMetaDeviceID, ID d);
   (LabelMetaDeviceName, Name d);
   (LabelMetaDeviceOS, OS d);
   (LabelMetaTailnet, Tailnet d)].

(** A label value as the label filter leaves it: gone when empty. *)
Definition nonEmpty (v : string) : option string :=
  if decide (v = "") then None else Some v.

(** The number of descriptors of a device if there were one per distinct
    tag. *)
Definition distinctTagCount (d : Device) : nat :=
  match Tags d with
  | [] => 1%nat
  | ts => length (remove_dups ts)
  end.

(** A device with the given addresses and tags, and no client version. *)
Definition sampleDevice (addresses tags : list string) : Device :=
  {| Addresses := addresses;
     API := "api.tailscale.com";
     Authorized := true;
     ClientVersion := "";
     Hostname := "somethingclever";
     ID := "109876543210";
     Name := "somethingclever.example.com";
     OS := "linux";
     Tags := tags;
     Tailnet := "example@gmail.com" |}.

(** ** The discovery handler *)

(** Modelled from the spec: the errors of [Client.Devices], declared in
    another file of the package.  [ErrStaleResults] is the distinguished
    value the handler compares with; any other error is an upstream error,
    known by its text. *)
Inductive error : Type :=
| ErrStaleResults
| UpstreamError (text : string).

(** Modelled from the spec: the [Client] interface, declared in another
    file of the package.  Its [Devices] method polls and caches; a client
    stands here for what one call of the method returns. *)
Record Client : Type := {
  Devices : list Device * option error
}.

(** An [http.ResponseWriter] that records the response, as
    [httptest.ResponseRecorder] does: the status is 200 until a header is
    written, [WriteHeader] counts once and fixes the headers sent, and the
    first [Write] writes the header with status 200. *)
Record ResponseWriter : Type := {
  rwHeader : gmap string (list string);
  rwWroteHeader : bool;
  rwCode : Z;
  rwSentHeader : gmap string (list string);
  rwBody : string
}.

Definition newResponse : ResponseWriter :=
  {| rwHeader := ∅; rwWroteHeader := false; rwCode := 200;
     rwSentHeader := ∅; rwBody := "" |}.

(** The headers of the response as the client sees them. *)
Definition responseHeader (w : ResponseWriter) : gmap string (list string) :=
  if rwWroteHeader w then rwSentHeader w else rwHeader w.

(** What a handler acts on: the response and the log. *)
Record World : Type := {
  response : ResponseWriter;
  logged : list string
}.

Definition newWorld : World := {| response := newResponse; logged := [] |}.

(** Handlers are state-passing functions over the world. *)
Definition IO (A : Type) : Type := World → A * World.

Global Instance IO_ret : MRet IO := fun A a w => (a, w).
Global Instance IO_bind : MBind IO :=
  fun A B f m w => let '(a, w') := m w in f a w'.

Definition onResponse (f : ResponseWriter → ResponseWriter) : IO unit :=
  fun w => (tt, {| response := f (response w); logged := logged w |}).

Definition StatusInternalServerError : Z := 500.
Definition StatusOK : Z := 200.

Definition writeHeader (code : Z) (w : ResponseWriter) : ResponseWriter :=
  if rwWroteHeader w then w
  else {| rwHeader := rwHeader w; rwWroteHeader := true; rwCode := code;
          rwSentHeader := rwHeader w; rwBody := rwBody w |}.

Definition WriteHeader (code : Z) : IO unit := onResponse (writeHeader code).

Definition Write (p : string) : IO unit :=
  onResponse (fun w =>
    let w := writeHeader StatusOK w in
    {| rwHeader := rwHeader w; rwWroteHeader := rwWroteHeader w;
       rwCode := rwCode w; rwSentHeader := rwSentHeader w;
       rwBody := rwBody w +:+ p |}).

Definition HeaderAdd (key value : string) : IO unit :=
  onResponse (fun w =>
    {| rwHeader := <[key := default [] (rwHeader w !! key) ++ [value]]>
                     (rwHeader w);
       rwWroteHeader := rwWroteHeader w; rwCode := rwCode w;
       rwSentHeader := rwSentHeader w; rwBody := rwBody w |}).

Definition logPrint (line : string) : IO unit :=
  fun w => (tt, {| response := response w; logged := logged w ++ [line] |}).

(** [io.Copy(w, &buf)]: an empty buffer writes nothing. *)
Definition ioCopy (buf : string) : IO unit :=
  if Net.is_empty buf then mret tt else Write buf.

Record discoveryHandler : Type := {
  ts : Client;
  filters : list filter
}.

Section ServeHTTP.

(** [json.NewEncoder(&buf).Encode(targets)], a library function: the
    bytes it leaves in [buf], or the text of its error. *)
Variable Encode : list TargetDescriptor → string + string.

(** The part of [ServeHTTP] after the devices are known. *)
Definition serveTargets (h : discoveryHandler) (devices : list Device)
    : IO unit :=
  let targets := translate devices (filters h) in
  match Encode targets with
  | inr text =>
      WriteHeader StatusInternalServerError;;
      logPrint ("Failed encoding targets to JSON: " +:+ text);;
      Write ("Failed encoding targets to JSON: " +:+ text)
  | inl buf =>
      HeaderAdd "Content-Type" "application/json";;
      ioCopy buf
  end.

Definition ServeHTTP (h : discoveryHandler) : IO unit :=
  let '(devices, err) := Devices (ts h) in
  match err with
  | Some (UpstreamError text) =>
      WriteHeader StatusInternalServerError;;
      logPrint ("Failed to discover Tailscale devices: " +:+ text);;
      Write ("Failed to discover Tailscale devices: " +:+ text)
  | Some ErrStaleResults =>
      logPrint "Serving potentially stale results";;
      serveTargets h devices
  | None => serveTargets h devices
  end.

End ServeHTTP.

(** [Export] the Tailscale client for Service Discovery. *)
Definition Export (ts : Client) : discoveryHandler :=
  {| ts := ts; filters := exportFilters |}.

(** ** Runs: the order of a [range] over a map

    Go leaves the order in which [range] visits the entries of a map to the
    runtime, and the order changes from one run to the next.  The
    functions above visit the entries in one fixed order.  Here a run of a
    loop over a map is any order that visits each entry once. *)
Module Run.

Definition visits (m : gmap string string) (order : list (string * string))
    : Prop :=
  order ≡ₚ map_to_list m.

Inductive filterEmpty : option (gmap string string) →
    option (gmap string string) → Prop :=
| filterEmpty_nil : filterEmpty None None
| filterEmpty_map m order :
    visits m order →
    filterEmpty (Some m)
      (Some (foldl (fun filtered kv => filterEmpty_step kv.1 kv.2 filtered)
                   ∅ order)).

(** A filter, as a relation between its argument and a result. *)
Definition filter : Type := TargetDescriptor → TargetDescriptor → Prop.

Definition filterEmptyLabels : filter := fun td td' =>
  ∃ labels, filterEmpty (Labels td) labels
            ∧ td' = {| Targets := Targets td; Labels := labels |}.

Definition filterIPv6Addresses : filter := fun td td' =>
  td' = filterIPv6Addresses td.

Inductive applyFilters : list filter → TargetDescriptor →
    TargetDescriptor → Prop :=
| applyFilters_nil target : applyFilters [] target target
| applyFilters_cons (f : filter) fs target target' target'' :
    f target target' → applyFilters fs target' target'' →
    applyFilters (f :: fs) target target''.

Inductive tagLabels : option (gmap string string) → string →
    gmap string string → Prop :=
| tagLabels_nil t : tagLabels None t (<[LabelMetaDeviceTag := t]> ∅)
| tagLabels_map m order t :
    visits m order →
    tagLabels (Some m) t
      (<[LabelMetaDeviceTag := t]>
         (foldl (fun (lt : gmap string string) kv => <[kv.1 := kv.2]> lt)
                ∅ order)).

Definition fanOut (target : TargetDescriptor) (tags : list string)
    (out : list TargetDescriptor) : Prop :=
  match tags with
  | [] => out = [target]
  | _ =>
      Forall2 (fun t lt =>
                 ∃ labels, tagLabels (Labels target) t labels
                           ∧ lt = {| Targets := Targets target;
                                     Labels := Some labels |})
              tags out
  end.

Inductive translate (filters : list filter) : list Device →
    list TargetDescriptor → Prop :=
| translate_nil : translate filters [] []
| translate_cons d devices target out found :
    applyFilters filters (baseTarget d) target →
    fanOut target (Tags d) out →
    translate filters devices found →
    translate filters (d :: devices) (out ++ found).

(** A filter that gives one result whatever the run. *)
Definition functional (f : filter) : Prop :=
  ∀ td td1 td2, f td td1 → f td td2 → td1 = td2.

(** The filters [Export] installs. *)
Definition exportFilters : list filter :=
  [filterEmptyLabels; filterIPv6Addresses].

End Run.

(** * Properties *)

(** ** Go's address parser: examples *)

Example ParseIP_dotted :
  Net.ParseIP "100.64.0.1"
  = Some (Net.v4InV6Prefix ++ [Byte.x64; Byte.x40; Byte.x00; Byte.x01]).
Proof. vm_compute. reflexivity. Qed.

Example ParseIP_mapped :
  Net.ParseIP "::ffff:100.64.0.1" = Net.ParseIP "100.64.0.1".
Proof. vm_compute. reflexivity. Qed.

Example ParseIP_leading_zero : Net.ParseIP "100.064.0.1" = None.
Proof. vm_compute. reflexivity. Qed.

Example ParseIP_zone : Net.ParseIP "fe80::1%eth0" = None.
Proof. vm_compute. reflexivity. Qed.

Example To4_v6 :
  Net.To4 <$> Net.ParseIP "2001:db8::1" = Some None.
Proof. vm_compute. reflexivity. Qed.

Example IP_String_v6 :
  Net.IP_String <$> Net.ParseIP "2001:0db8:0:0:0:0:0:1" = Some "2001:db8::1".
Proof. vm_compute. reflexivity. Qed.

(** ** The label filter *)

Lemma filterEmpty_fold (m : gmap string string) :
  map_fold filterEmpty_step ∅ m = base.filter kept m.
Proof.
  apply (map_fold_weak_ind (fun r m => r = base.filter kept m)).
  - by rewrite map_filter_empty.
  - intros k v m' r Hk ->. unfold filterEmpty_step.
    case_bool_decide as Hkv.
    + rewrite map_filter_insert_False, delete_id; [done|done|].
      unfold kept; simpl. tauto.
    + rewrite map_filter_insert_True; [done|].
      unfold kept; simpl. tauto.
Qed.

Lemma filterEmpty_Some (m : gmap string string) :
  filterEmpty (Some m) = Some (base.filter kept m).
Proof. simpl. by rewrite filterEmpty_fold. Qed.

Lemma copy_fold (m : gmap string string) :
  map_fold (fun k v (lt : gmap string string) => <[k := v]> lt) ∅ m = m.
Proof.
  apply (map_fold_weak_ind (fun r m => r = m)); [done|].
  by intros k v m' r _ ->.
Qed.

Lemma tagLabels_Some (m : gmap string string) (t : string) :
  tagLabels (Some m) t = <[LabelMetaDeviceTag := t]> m.
Proof. unfold tagLabels. by rewrite copy_fold. Qed.

(** ** The shape of [translate] *)

Lemma translate_step_fanOut filters found d :
  translate_step filters found d
  = found ++ fanOut (applyFilters filters (baseTarget d)) (Tags d).
Proof.
  unfold translate_step, fanOut.
  set (target := applyFilters filters (baseTarget d)).
  destruct (Tags d) as [|t ts] eqn:Ht; [done|].
  change (length (t :: ts) =? 0)%nat with false. cbv iota.
  generalize (t :: ts). intros l. revert found.
  induction l as [|x l IH]; intros found; simpl.
  - by rewrite app_nil_r.
  - rewrite IH. by rewrite <- app_assoc.
Qed.

Lemma translate_foldl filters devices found :
  foldl (translate_step filters) found devices
  = found ++ translate devices filters.
Proof.
  unfold translate. revert found.
  induction devices as [|d ds IH]; intros found; simpl.
  - by rewrite app_nil_r.
  - rewrite (IH (translate_step _ _ _)), (IH (translate_step _ [] _)).
    rewrite !translate_step_fanOut. simpl. by rewrite app_assoc.
Qed.

Lemma translate_nil filters : translate [] filters = [].
Proof. done. Qed.

Lemma translate_cons d devices filters :
  translate (d :: devices) filters
  = fanOut (applyFilters filters (baseTarget d)) (Tags d)
    ++ translate devices filters.
Proof.
  unfold translate at 1. simpl.
  by rewrite translate_foldl, translate_step_fanOut.
Qed.

Lemma translate_app ds1 ds2 filters :
  translate (ds1 ++ ds2) filters
  = translate ds1 filters ++ translate ds2 filters.
Proof.
  induction ds1 as [|d ds1 IH]; [done|].
  simpl. by rewrite !translate_cons, IH, app_assoc.
Qed.

Lemma translate_one d filters :
  translate [d] filters
  = fanOut (applyFilters filters (baseTarget d)) (Tags d).
Proof. by rewrite translate_cons, translate_nil, app_nil_r. Qed.

(** ** Go's address parser on dotted decimal *)

Lemma append_assoc (s1 s2 s3 : string) :
  (s1 +:+ s2) +:+ s3 = s1 +:+ (s2 +:+ s3).
Proof.
  induction s1 as [|c s1 IH]; [done|].
  change (String c ((s1 +:+ s2) +:+ s3) = String c (s1 +:+ s2 +:+ s3)).
  by f_equal.
Qed.

Lemma append_empty_r (s : string) : s +:+ "" = s.
Proof.
  induction s as [|c s IH]; [done|].
  change (String c (s +:+ "") = String c s). by f_equal.
Qed.

Lemma uint8_byte_val (x : byte) : Net.uint8 (Net.byte_val x) = x.
Proof. by destruct x. Qed.

Lemma appendDecimal_decimal (b : string) (x : byte) :
  Net.appendDecimal b x = b +:+ decimal x.
Proof.
  unfold decimal, Net.appendDecimal.
  destruct (Net.byte_val x >=? 100), (Net.byte_val x >=? 10); simpl;
    by rewrite ?append_assoc.
Qed.

Lemma loop_scanOctet s rest prev val digLen pos fields prev' val' digLen' :
  scanOctet s prev val digLen = Some (prev', val', digLen') →
  Net.parseIPv4Fields_loop prev (s +:+ rest) val digLen pos fields
  = Net.parseIPv4Fields_loop prev' rest val' digLen' pos fields.
Proof.
  revert prev val digLen.
  induction s as [|c s IH]; intros prev val digLen Hscan.
  - injection Hscan as -> -> ->. reflexivity.
  - change (String c s +:+ rest) with (String c (s +:+ rest)).
    cbn [scanOctet] in Hscan. cbn [Net.parseIPv4Fields_loop].
    destruct (Net.is_digit c); [|done].
    destruct ((digLen =? 1) && (val =? 0)); [done|].
    destruct (_ >? 255); [done|]. by apply IH.
Qed.

Lemma octet_ok_all (x : byte) : octet_ok x = true.
Proof. destruct x; vm_compute; reflexivity. Qed.

Lemma scanOctet_prev s prev val digLen :
  Net.is_empty s = false →
  scanOctet s prev val digLen = scanOctet s None val digLen.
Proof. by destruct s. Qed.

Lemma decimal_is_empty (x : byte) : Net.is_empty (decimal x) = false.
Proof. by destruct x. Qed.

Lemma scanOctet_decimal (x : byte) prev :
  ∃ c k, scanOctet (decimal x) prev 0 0 = Some (Some c, Net.byte_val x, k)
         ∧ Net.is_digit c = true.
Proof.
  rewrite scanOctet_prev by apply decimal_is_empty.
  pose proof (octet_ok_all x) as Hok. unfold octet_ok in Hok.
  destruct (scanOctet (decimal x) None 0 0) as [[[[c|] v] k]|]; try done.
  apply andb_true_iff in Hok as [Hv Hc]. apply Z.eqb_eq in Hv as ->.
  by exists c, k.
Qed.

Lemma octet_end (x : byte) prev fields :
  Net.parseIPv4Fields_loop prev (decimal x) 0 0 3 fields
  = Some (<[3%nat := x]> fields).
Proof.
  destruct (scanOctet_decimal x prev) as (c & k & Hscan & _).
  rewrite <- (append_empty_r (decimal x)).
  rewrite (loop_scanOctet _ _ _ _ _ _ _ _ _ _ Hscan).
  cbn [Net.parseIPv4Fields_loop]. by rewrite uint8_byte_val.
Qed.

Lemma octet_dot (x : byte) prev rest (pos : nat) fields :
  (pos < 3)%nat → Net.is_empty rest = false →
  Net.parseIPv4Fields_loop prev (decimal x +:+ "." +:+ rest) 0 0 pos fields
  = Net.parseIPv4Fields_loop (Some "."%char) rest 0 0 (S pos)
      (<[pos := x]> fields).
Proof.
  intros Hpos Hrest.
  destruct (scanOctet_decimal x prev) as (c & k & Hscan & Hc).
  rewrite (loop_scanOctet _ _ _ _ _ _ _ _ _ _ Hscan).
  change ("." +:+ rest) with (String "."%char rest).
  cbn [Net.parseIPv4Fields_loop].
  change (Net.is_digit ".") with false. change (Net.is_dot ".") with true.
  cbv iota. rewrite Hrest, orb_false_r.
  assert (Net.is_dot c = false) as ->.
  { revert Hc. unfold Net.is_digit, Net.is_dot.
    change (Net.code "0") with 48. change (Net.code "9") with 57.
    change (Net.code ".") with 46. lia. }
  destruct (Nat.eqb_spec pos 3) as [->|_]; [lia|].
  by rewrite uint8_byte_val.
Qed.

Lemma decimal_nonempty (x : byte) rest :
  Net.is_empty (decimal x +:+ rest) = false.
Proof. by destruct x. Qed.

Lemma firstMark_decimal (x : byte) rest :
  Net.firstMark (decimal x +:+ "." +:+ rest) = Some "."%char.
Proof. by destruct x. Qed.

Lemma string4_decimal (a b c d : byte) :
  Net.string4 a b c d
  = decimal a +:+ "." +:+ decimal b +:+ "." +:+ decimal c +:+ "."
    +:+ decimal d.
Proof.
  unfold Net.string4. rewrite !appendDecimal_decimal.
  by rewrite !append_assoc.
Qed.

(** Dotted decimal reads back as the address it was printed from. *)
Lemma ParseIP_string4 (a b c d : byte) :
  Net.ParseIP (Net.string4 a b c d) = Some (Net.v4InV6Prefix ++ [a; b; c; d]).
Proof.
  rewrite string4_decimal.
  unfold Net.ParseIP, Net.ParseAddr. rewrite firstMark_decimal.
  change (Net.is_dot ".") with true. cbv iota.
  unfold Net.parseIPv4, Net.parseIPv4Fields.
  rewrite octet_dot by (try lia; apply decimal_nonempty).
  rewrite octet_dot by (try lia; apply decimal_nonempty).
  rewrite octet_dot by (try lia; rewrite <- (append_empty_r (decimal d));
                        apply decimal_nonempty).
  by rewrite octet_end.
Qed.

Lemma To4_mapped (a b c d : byte) :
  Net.To4 (Net.v4InV6Prefix ++ [a; b; c; d]) = Some [a; b; c; d].
Proof. reflexivity. Qed.

Lemma IP_String_4 (a b c d : byte) :
  Net.IP_String [a; b; c; d] = Net.string4 a b c d.
Proof. reflexivity. Qed.

Lemma To4_length (ip ip4 : Net.IP) :
  Net.To4 ip = Some ip4 → ∃ a b c d, ip4 = [a; b; c; d].
Proof.
  unfold Net.To4, Net.IPv4len, Net.IPv6len, Net.slice.
  destruct (length ip =? 4)%nat eqn:H4.
  - intros [= <-]. apply Nat.eqb_eq in H4.
    do 5 (destruct ip as [|? ip]; try done). eauto.
  - destruct (length ip =? 16)%nat eqn:H16; [|done].
    apply Nat.eqb_eq in H16.
    do 17 (destruct ip as [|? ip]; try done).
    simpl. case_match; [|done]. intros [= <-]. eauto.
Qed.

(** ** The address filter *)

Lemma filterIPv6Addresses_foldl (l acc : list string) :
  foldl filterIPv6Addresses_step acc l = acc ++ omap normalize l.
Proof.
  revert acc. induction l as [|t l IH]; intros acc; simpl.
  - by rewrite app_nil_r.
  - rewrite IH. unfold filterIPv6Addresses_step, normalize.
    destruct (Net.ParseIP t) as [ip|]; [|done].
    destruct (Net.To4 ip); [|done]. by rewrite <- app_assoc.
Qed.

Lemma filterIPv6Addresses_Targets (td : TargetDescriptor) :
  Targets (filterIPv6Addresses td) = omap normalize (Targets td).
Proof. simpl. by rewrite filterIPv6Addresses_foldl. Qed.

Lemma normalize_dotted (t s : string) :
  normalize t = Some s → ∃ a b c d, s = Net.string4 a b c d.
Proof.
  unfold normalize. destruct (Net.ParseIP t) as [ip|]; [|done].
  destruct (Net.To4 ip) as [ip4|] eqn:H4; [|done].
  destruct (To4_length _ _ H4) as (a & b & c & d & ->).
  intros [= <-]. by exists a, b, c, d.
Qed.

Lemma normalize_string4 (a b c d : byte) :
  normalize (Net.string4 a b c d) = Some (Net.string4 a b c d).
Proof. unfold normalize. by rewrite ParseIP_string4, To4_mapped. Qed.

(** An IPv4 address written in its IPv6-mapped form is an IPv4 address
    for [To4], and leaves the filter in dotted decimal. *)
Example normalize_mapped :
  normalize "::ffff:100.64.0.1" = Some "100.64.0.1".
Proof. vm_compute. reflexivity. Qed.

Lemma normalize_fixed (t s : string) :
  normalize t = Some s → normalize s = Some s.
Proof.
  intros (a & b & c & d & ->)%normalize_dotted. apply normalize_string4.
Qed.

Lemma omap_normalize_idemp (l : list string) :
  omap normalize (omap normalize l) = omap normalize l.
Proof.
  induction l as [|t l IH]; [done|]. simpl.
  destruct (normalize t) as [s|] eqn:Hs; [|done].
  simpl. rewrite (normalize_fixed _ _ Hs). by f_equal.
Qed.

(** C9: each default filter changes only its own component of the
    descriptor: the address filter returns the label map it was given, and
    the label filter returns the targets it was given. *)
Theorem default_filters_frame (td : TargetDescriptor) :
  Labels (filterIPv6Addresses td) = Labels td
  ∧ Targets (filterEmptyLabels td) = Targets td.
Proof. split; reflexivity. Qed.

(** C10: both default filters are idempotent; for the address filter this
    is because every address it emits is the dotted decimal form of four
    bytes, which parses back to these bytes and prints as itself. *)
Theorem default_filters_idempotent (td : TargetDescriptor) :
  filterEmptyLabels (filterEmptyLabels td) = filterEmptyLabels td
  ∧ filterIPv6Addresses (filterIPv6Addresses td) = filterIPv6Addresses td
  ∧ Forall (fun s => ∃ a b c d,
              s = Net.string4 a b c d
              ∧ Net.ParseIP s = Some (Net.v4InV6Prefix ++ [a; b; c; d])
              ∧ Net.To4 (Net.v4InV6Prefix ++ [a; b; c; d]) = Some [a; b; c; d]
              ∧ Net.IP_String [a; b; c; d] = s)
           (Targets (filterIPv6Addresses td)).
Proof.
  split; [|split].
  - unfold filterEmptyLabels. simpl. f_equal.
    destruct (Labels td) as [m|]; [|done].
    rewrite !filterEmpty_Some. f_equal.
    apply map_filter_id.
    intros k v (_ & Hkept)%map_lookup_filter_Some. done.
  - unfold filterIPv6Addresses at 1 3. f_equal.
    change (Targets (filterIPv6Addresses (filterIPv6Addresses td))
            = Targets (filterIPv6Addresses td)).
    rewrite !filterIPv6Addresses_Targets. apply omap_normalize_idemp.
  - rewrite filterIPv6Addresses_Targets. apply Forall_forall.
    intros s (t & _ & Hs)%list_elem_of_omap.
    destruct (normalize_dotted _ _ Hs) as (a & b & c & d & ->).
    exists a, b, c, d. by rewrite ParseIP_string4.
Qed.

(** ** Descriptors of a device *)

Lemma translate_Forall (P : TargetDescriptor → Prop) filters devices :
  Forall (fun d => Forall P (translate [d] filters)) devices →
  Forall P (translate devices filters).
Proof.
  induction 1 as [|d ds Hd _ IH]; [by rewrite translate_nil|].
  rewrite translate_cons, <- translate_one. by apply Forall_app.
Qed.

Lemma translate_concat devices filters :
  translate devices filters
  = concat ((fun d => translate [d] filters) <$> devices).
Proof.
  induction devices as [|d ds IH]; [done|].
  rewrite translate_cons, <- translate_one. simpl. by rewrite IH.
Qed.

Lemma fanOut_Forall (P : TargetDescriptor → Prop) target tags :
  P target →
  (∀ t, t ∈ tags →
     P {| Targets := Targets target;
          Labels := Some (tagLabels (Labels target) t) |}) →
  Forall P (fanOut target tags).
Proof.
  intros Htarget Htags. destruct tags as [|t ts]; [by constructor|].
  unfold fanOut. apply Forall_fmap, Forall_forall. intros x Hx. by apply Htags.
Qed.

Lemma fanOut_length target tags :
  length (fanOut target tags)
  = match tags with [] => 1%nat | _ => length tags end.
Proof. destruct tags; [done|]. unfold fanOut. by rewrite length_fmap. Qed.

Lemma tagLabels_lookup_ne labels t k :
  k ≠ LabelMetaDeviceTag →
  tagLabels labels t !! k
  = match labels with Some m => m !! k | None => None end.
Proof.
  intros Hk. destruct labels as [m|].
  - by rewrite tagLabels_Some, lookup_insert_ne.
  - unfold tagLabels. by rewrite lookup_insert_ne.
Qed.

Lemma tagLabels_lookup_tag labels t :
  tagLabels labels t !! LabelMetaDeviceTag = Some t.
Proof. unfold tagLabels. by rewrite lookup_insert_eq. Qed.

Lemma fixedLabels_not_tag k : k ∈ fixedLabels → k ≠ LabelMetaDeviceTag.
Proof.
  unfold fixedLabels. rewrite !elem_of_cons, elem_of_nil.
  intros H; repeat (destruct H as [->|H]; [done|]). done.
Qed.

Lemma baseTarget_Labels (d : Device) :
  Labels (baseTarget d) = Some (list_to_map (fieldLabels d)).
Proof. reflexivity. Qed.

Lemma fieldLabels_lookup (d : Device) :
  Forall (fun '(k, v) =>
            (list_to_map (fieldLabels d) : gmap string string) !! k = Some v)
         (fieldLabels d).
Proof. repeat constructor. Qed.

Lemma fieldLabels_keys (d : Device) : (fieldLabels d).*1 = fixedLabels.
Proof. reflexivity. Qed.

Lemma baseTarget_lookup (d : Device) (k : string) :
  k ∈ fixedLabels → is_Some (lookupLabel (baseTarget d) k).
Proof.
  rewrite <- (fieldLabels_keys d).
  intros ([k' v] & -> & Hin)%list_elem_of_fmap. exists v.
  apply (proj1 (Forall_forall _ _) (fieldLabels_lookup d) _ Hin).
Qed.

Lemma fixedLabels_not_empty k : k ∈ fixedLabels → k ≠ "".
Proof.
  unfold fixedLabels. rewrite !elem_of_cons, elem_of_nil.
  intros H; repeat (destruct H as [->|H]; [done|]). done.
Qed.

(** C7: the descriptor [translate] builds for a device before any filter
    has its addresses as targets and the eight fixed labels, each with the
    value of its field as it is, empty or not; so with no filters every
    emitted descriptor has all eight keys. *)
Theorem base_descriptor (d : Device) :
  Targets (baseTarget d) = Addresses d
  ∧ (∃ m : gmap string string,
       Labels (baseTarget d) = Some m
       ∧ dom m = list_to_set fixedLabels
       ∧ size m = 8%nat
       ∧ m !! LabelMetaAPI = Some (API d)
       ∧ m !! LabelMetaDeviceAuthorized
         = Some (if Authorized d then "true" else "false")
       ∧ m !! LabelMetaDeviceClientVersion = Some (ClientVersion d)
       ∧ m !! LabelMetaDeviceHostname = Some (Hostname d)
       ∧ m !! LabelMetaDeviceID = Some (ID d)
       ∧ m !! LabelMetaDeviceName = Some (Name d)
       ∧ m !! LabelMetaDeviceOS = Some (OS d)
       ∧ m !! LabelMetaTailnet = Some (Tailnet d))
  ∧ translate [d] [] = fanOut (baseTarget d) (Tags d)
  ∧ ∀ devices,
      Forall (fun td =>
                Forall (fun k => is_Some (lookupLabel td k)) fixedLabels)
             (translate devices []).
Proof.
  split; [done|]. split; [|split].
  - eexists. split; [reflexivity|].
    split; [|split].
    + rewrite dom_list_to_map_L. reflexivity.
    + rewrite map_size_list_to_map; [done|]. by compute_done.
    + repeat split.
  - by rewrite translate_one.
  - intros devices. apply translate_Forall, Forall_forall. intros d' _.
    rewrite translate_one. apply fanOut_Forall.
    + apply Forall_forall. intros k Hk. by apply baseTarget_lookup.
    + intros t _. apply Forall_forall. intros k Hk.
      unfold lookupLabel. cbn [Labels applyFilters foldl].
      rewrite tagLabels_lookup_ne by by apply fixedLabels_not_tag.
      by apply (baseTarget_lookup d').
Qed.

Lemma tagLabels_insert labels t :
  tagLabels labels t = <[LabelMetaDeviceTag := t]> (default ∅ labels).
Proof. destruct labels as [m|]; [apply tagLabels_Some|done]. Qed.

Lemma fanOut_tag_labels target t ts :
  (fun td => lookupLabel td LabelMetaDeviceTag) <$> fanOut target (t :: ts)
  = Some <$> (t :: ts).
Proof.
  unfold fanOut. rewrite <- list_fmap_compose. apply list_fmap_ext.
  intros i x _. unfold lookupLabel. simpl. apply tagLabels_lookup_tag.
Qed.

(** C2, as the code has it: every device contributes one descriptor per
    entry of its [Tags], duplicates included, or one descriptor when it has
    no tags; the blocks of the devices follow each other in the output. *)
Theorem translate_count (devices : list Device) (filters : list filter) :
  translate devices filters
  = concat ((fun d => translate [d] filters) <$> devices)
  ∧ Forall (fun d =>
      length (translate [d] filters) = (1 `max` length (Tags d))%nat
      ∧ (Tags d = []
         ∨ (fun td => lookupLabel td LabelMetaDeviceTag)
             <$> translate [d] filters = Some <$> Tags d)) devices
  ∧ length (translate devices filters)
    = sum_list ((fun d => (1 `max` length (Tags d))%nat) <$> devices).
Proof.
  assert (Hlen : ∀ d, length (translate [d] filters)
                      = (1 `max` length (Tags d))%nat).
  { intros d. rewrite translate_one, fanOut_length.
    destruct (Tags d); simpl; lia. }
  split; [apply translate_concat|]. split.
  - apply Forall_forall. intros d _. split; [apply Hlen|].
    rewrite translate_one. destruct (Tags d) as [|t ts]; [by left|right].
    apply fanOut_tag_labels.
  - induction devices as [|d ds IH]; [done|].
    rewrite translate_cons, length_app, <- translate_one, Hlen, IH. done.
Qed.

(** C2 as stated fails: a device whose [Tags] name one tag twice has one
    distinct tag and yet two descriptors. *)
Lemma duplicate_tag_two_descriptors :
  distinctTagCount (sampleDevice ["100.64.0.1"] ["tag:a"; "tag:a"]) = 1%nat
  ∧ length (translate [sampleDevice ["100.64.0.1"] ["tag:a"; "tag:a"]]
              exportFilters) = 2%nat.
Proof. split; vm_compute; reflexivity. Qed.

(** C3: a device tagged [tag:a], [tag:b] yields exactly two descriptors,
    the same but for the value of the tag label, [a] first; descriptors
    come in the order of the devices and, within a device, of its tags;
    the copies of one device have the same targets. *)
Theorem tag_fanout_order :
  (∀ d filters, Tags d = ["tag:a"; "tag:b"] →
     ∃ targets (labels : gmap string string),
       translate [d] filters
       = [ {| Targets := targets;
              Labels := Some (<[LabelMetaDeviceTag := "tag:a"]> labels) |};
           {| Targets := targets;
              Labels := Some (<[LabelMetaDeviceTag := "tag:b"]> labels) |} ])
  ∧ (∀ ds1 ds2 filters,
       translate (ds1 ++ ds2) filters
       = translate ds1 filters ++ translate ds2 filters)
  ∧ (∀ d filters,
       Tags d = []
       ∨ (fun td => lookupLabel td LabelMetaDeviceTag)
           <$> translate [d] filters = Some <$> Tags d)
  ∧ (∀ d filters,
       Forall (fun td => Targets td
                         = Targets (applyFilters filters (baseTarget d)))
              (translate [d] filters)).
Proof.
  split; [|split; [|split]].
  - intros d filters Htags.
    exists (Targets (applyFilters filters (baseTarget d))),
           (default ∅ (Labels (applyFilters filters (baseTarget d)))).
    rewrite translate_one, Htags. simpl. by rewrite !tagLabels_insert.
  - apply translate_app.
  - intros d filters. rewrite translate_one.
    destruct (Tags d) as [|t ts]; [by left|right]. apply fanOut_tag_labels.
  - intros d filters. rewrite translate_one. by apply fanOut_Forall.
Qed.

Lemma tag_fanout_order_witness :
  ∃ targets (labels : gmap string string),
    translate [sampleDevice ["100.64.0.1"] ["tag:a"; "tag:b"]] exportFilters
    = [ {| Targets := targets;
           Labels := Some (<[LabelMetaDeviceTag := "tag:a"]> labels) |};
        {| Targets := targets;
           Labels := Some (<[LabelMetaDeviceTag := "tag:b"]> labels) |} ].
Proof.
  apply (proj1 tag_fanout_order
           (sampleDevice ["100.64.0.1"] ["tag:a"; "tag:b"]) exportFilters).
  reflexivity.
Defined.

(** ** The default pipeline *)

Lemma exportFilters_base (d : Device) :
  applyFilters exportFilters (baseTarget d)
  = {| Targets := omap normalize (Addresses d);
       Labels := Some (base.filter kept (list_to_map (fieldLabels d))) |}.
Proof.
  unfold applyFilters, exportFilters. cbn [foldl].
  unfold filterIPv6Addresses, filterEmptyLabels.
  cbn [Targets Labels baseTarget].
  rewrite filterIPv6Addresses_foldl. f_equal.
  change (filterEmpty (Some (list_to_map (fieldLabels d)))
          = Some (base.filter kept (list_to_map (fieldLabels d)))).
  apply filterEmpty_Some.
Qed.

Lemma exportFilters_Targets (td : TargetDescriptor) :
  Targets (applyFilters exportFilters td) = omap normalize (Targets td).
Proof.
  unfold applyFilters, exportFilters. cbn [foldl].
  by rewrite filterIPv6Addresses_Targets.
Qed.

(** What the code does keep of the rule on empty labels: under the default
    pipeline no label has an empty key, and no label other than the tag
    label has an empty value; with no empty tag, no label has an empty
    value. *)
Theorem labels_not_empty (devices : list Device) :
  Forall (fun td => ∃ m : gmap string string,
            Labels td = Some m
            ∧ ∀ k v, m !! k = Some v →
                k ≠ "" ∧ (v = "" → k = LabelMetaDeviceTag))
         (translate devices exportFilters)
  ∧ (Forall (fun d => "" ∉ Tags d) devices →
     Forall (fun td => ∃ m : gmap string string,
               Labels td = Some m
               ∧ ∀ k v, m !! k = Some v → k ≠ "" ∧ v ≠ "")
            (translate devices exportFilters)).
Proof.
  split.
  - apply translate_Forall, Forall_forall. intros d _.
    rewrite translate_one, exportFilters_base. apply fanOut_Forall.
    + eexists. split; [reflexivity|].
      intros k v (_ & Hk & Hv)%map_lookup_filter_Some. done.
    + intros t _. eexists. split; [reflexivity|]. cbn [Labels].
      rewrite tagLabels_Some. intros k v.
      rewrite lookup_insert_Some.
      intros [[<- <-]|[_ (_ & Hk & Hv)%map_lookup_filter_Some]]; done.
  - intros Htags. apply translate_Forall.
    eapply Forall_impl; [exact Htags|]. intros d Hd. simpl in Hd.
    rewrite translate_one, exportFilters_base. apply fanOut_Forall.
    + eexists. split; [reflexivity|].
      intros k v (_ & Hk & Hv)%map_lookup_filter_Some. done.
    + intros t Ht. eexists. split; [reflexivity|]. cbn [Labels].
      rewrite tagLabels_Some. intros k v.
      rewrite lookup_insert_Some.
      intros [[<- <-]|[_ (_ & Hk & Hv)%map_lookup_filter_Some]]; [|done].
      split; [done|]. by intros ->.
Qed.

Lemma labels_not_empty_witness :
  Forall (fun td => ∃ m : gmap string string,
            Labels td = Some m
            ∧ ∀ k v, m !! k = Some v → k ≠ "" ∧ v ≠ "")
         (translate [sampleDevice ["100.64.0.1"] ["tag:a"; "tag:b"]]
                    exportFilters).
Proof.
  apply (proj2 (labels_not_empty
                  [sampleDevice ["100.64.0.1"] ["tag:a"; "tag:b"]])).
  repeat constructor; simpl; rewrite !elem_of_cons, elem_of_nil;
    intros [?|[?|[]]]; discriminate.
Defined.

(** C1: the code misses the tag label.  [translate] is documented as
    filtering empty labels, and the filters do remove the empty field
    labels, but the tag label is added after the filters have run: for a
    device whose only tag is the empty string the descriptor emitted under
    the default pipeline has the tag label with the empty value. *)
Lemma empty_tag_label_kept :
  (fun td => lookupLabel td LabelMetaDeviceTag)
    <$> translate [sampleDevice ["100.64.0.1"] [""]] exportFilters
  = [Some ""].
Proof. vm_compute. reflexivity. Qed.

Lemma filtered_field_lookup (d : Device) :
  Forall (fun '(k, v) =>
            base.filter kept (list_to_map (fieldLabels d) : gmap string string)
              !! k = nonEmpty v)
         (fieldLabels d).
Proof.
  apply Forall_forall. intros [k v] Hin.
  pose proof (proj1 (Forall_forall _ _) (fieldLabels_lookup d) _ Hin) as Hkv.
  simpl in Hkv.
  assert (k ≠ "") as Hk.
  { apply fixedLabels_not_empty. rewrite <- (fieldLabels_keys d).
    apply list_elem_of_fmap. exists (k, v). split; [reflexivity|exact Hin]. }
  unfold nonEmpty. destruct (decide (v = "")) as [->|Hv].
  - apply map_lookup_filter_None. right. intros v' Hv' [_ Hne]. simpl in *.
    congruence.
  - apply map_lookup_filter_Some. by repeat split.
Qed.

(** C6: under the default pipeline a descriptor has the label of a field
    exactly when the field is not empty, with the field as its value; so a
    device with an empty [ClientVersion] has no client-version label in any
    of its descriptors, and likewise for the other fields. *)
Theorem empty_field_omitted (devices : list Device) :
  translate devices exportFilters
  = concat ((fun d => translate [d] exportFilters) <$> devices)
  ∧ Forall (fun d =>
      Forall (fun td =>
                Forall (fun '(k, v) => lookupLabel td k = nonEmpty v)
                       (fieldLabels d))
             (translate [d] exportFilters)
      ∧ (ClientVersion d = "" →
         Forall (fun td => lookupLabel td LabelMetaDeviceClientVersion = None)
                (translate [d] exportFilters)))
      devices.
Proof.
  assert (Hall : ∀ d,
    Forall (fun td => Forall (fun '(k, v) => lookupLabel td k = nonEmpty v)
                             (fieldLabels d))
           (translate [d] exportFilters)).
  { intros d. rewrite translate_one, exportFilters_base. apply fanOut_Forall.
    - apply filtered_field_lookup.
    - intros t _. unfold lookupLabel. cbn [Labels].
      apply Forall_forall. intros [k v] Hin.
      pose proof (proj1 (Forall_forall _ _) (filtered_field_lookup d) _ Hin)
        as Hkv.
      simpl in Hkv. rewrite tagLabels_lookup_ne; [done|].
      apply fixedLabels_not_tag. rewrite <- (fieldLabels_keys d).
      apply list_elem_of_fmap. exists (k, v). split; [reflexivity|exact Hin]. }
  split; [apply translate_concat|].
  apply Forall_forall. intros d _. split; [apply Hall|].
  intros Hcv. eapply Forall_impl; [apply Hall|].
  intros td Htd. simpl in Htd.
  rewrite Forall_forall in Htd.
  specialize (Htd (LabelMetaDeviceClientVersion, ClientVersion d)).
  simpl in Htd. rewrite Htd, Hcv; [done|].
  unfold fieldLabels. rewrite !elem_of_cons. tauto.
Qed.

Lemma empty_field_omitted_witness :
  Forall (fun td => lookupLabel td LabelMetaDeviceClientVersion = None)
         (translate [sampleDevice ["100.64.0.1"] ["tag:a"; "tag:b"]]
                    exportFilters).
Proof.
  pose proof (proj2 (empty_field_omitted
    [sampleDevice ["100.64.0.1"] ["tag:a"; "tag:b"]])) as H.
  apply Forall_inv in H. apply (proj2 H). reflexivity.
Defined.

(** C4: under the default pipeline the targets [100.64.0.1],
    [2001:db8::1], [not-an-ip] become [100.64.0.1] alone: a target that does
    not parse or is not an IPv4 address is dropped, a kept one is replaced
    by its dotted decimal form, and a device left with no target still has
    its descriptors, with an empty target list. *)
Theorem address_filtering :
  (∀ labels,
     Targets (applyFilters exportFilters
                {| Targets := ["100.64.0.1"; "2001:db8::1"; "not-an-ip"];
                   Labels := labels |})
     = ["100.64.0.1"])
  ∧ (∀ td, Targets (applyFilters exportFilters td)
           = omap normalize (Targets td))
  ∧ (∀ t, normalize t = None
          ↔ Net.ParseIP t = None
            ∨ ∃ ip, Net.ParseIP t = Some ip ∧ Net.To4 ip = None)
  ∧ (∀ t s, normalize t = Some s
            ↔ ∃ ip a b c d, Net.ParseIP t = Some ip
                ∧ Net.To4 ip = Some [a; b; c; d]
                ∧ s = Net.string4 a b c d)
  ∧ Net.ParseIP "not-an-ip" = None
  ∧ (∃ ip, Net.ParseIP "2001:db8::1" = Some ip ∧ Net.To4 ip = None)
  ∧ (∀ d, Forall (fun t => normalize t = None) (Addresses d) →
          translate [d] exportFilters ≠ []
          ∧ length (translate [d] exportFilters)
            = (1 `max` length (Tags d))%nat
          ∧ Forall (fun td => Targets td = [])
                   (translate [d] exportFilters)).
Proof.
  split; [|split; [|split; [|split; [|split; [|split]]]]].
  - intros labels. rewrite exportFilters_Targets. vm_compute. reflexivity.
  - apply exportFilters_Targets.
  - intros t. unfold normalize.
    destruct (Net.ParseIP t) as [ip|]; [|by split; [left|]].
    destruct (Net.To4 ip) eqn:H4.
    + split; [done|]. intros [?|(ip' & [= <-] & ?)]; congruence.
    + split; [|done]. intros _. right. by exists ip.
  - intros t s. unfold normalize. split.
    + destruct (Net.ParseIP t) as [ip|]; [|done].
      destruct (Net.To4 ip) as [ip4|] eqn:H4; [|done].
      destruct (To4_length _ _ H4) as (a & b & c & d & ->).
      intros [= <-]. by exists ip, a, b, c, d.
    + intros (ip & a & b & c & d & -> & -> & ->). done.
  - vm_compute. reflexivity.
  - eexists. split; vm_compute; reflexivity.
  - intros d Hd.
    assert (Hnone : omap normalize (Addresses d) = []).
    { induction Hd as [|t l Ht _ IH]; [done|]. simpl. by rewrite Ht. }
    assert (Hlen : length (translate [d] exportFilters)
                   = (1 `max` length (Tags d))%nat).
    { rewrite translate_one, fanOut_length. destruct (Tags d); simpl; lia. }
    split; [|split; [done|]].
    + intros Hnil. rewrite Hnil in Hlen. simpl in Hlen. lia.
    + rewrite translate_one, exportFilters_base, Hnone.
      by apply fanOut_Forall.
Qed.

Lemma address_filtering_witness :
  translate [sampleDevice ["2001:db8::1"; "not-an-ip"] []] exportFilters ≠ []
  ∧ length (translate [sampleDevice ["2001:db8::1"; "not-an-ip"] []]
              exportFilters) = 1%nat
  ∧ Forall (fun td => Targets td = [])
      (translate [sampleDevice ["2001:db8::1"; "not-an-ip"] []] exportFilters).
Proof.
  apply (proj2 (proj2 (proj2 (proj2 (proj2 (proj2 address_filtering)))))
           (sampleDevice ["2001:db8::1"; "not-an-ip"] [])).
  repeat constructor; vm_compute; reflexivity.
Defined.

(** ** Runs *)

Lemma foldl_foldr_reverse {A B} (h : B → A → A) (a : A) (l : list B) :
  foldl (fun a x => h x a) a l = foldr h a (reverse l).
Proof.
  revert a. induction l as [|x l IH]; intros a; [done|].
  simpl. by rewrite IH, reverse_cons, foldr_app.
Qed.

(** A loop over a map whose rounds commute for distinct keys gives the same
    result in every order. *)
Lemma range_order_irrelevant {B}
    (f : string → string → B → B) (b : B) (m : gmap string string) order :
  (∀ k1 v1 k2 v2 a, k1 ≠ k2 → f k1 v1 (f k2 v2 a) = f k2 v2 (f k1 v1 a)) →
  Run.visits m order →
  foldl (fun a kv => f kv.1 kv.2 a) b order = map_fold f b m.
Proof.
  intros Hcomm Horder. unfold Run.visits in Horder.
  rewrite (foldl_foldr_reverse (fun kv a => f kv.1 kv.2 a)).
  assert (Hun : ∀ l, foldr (fun kv a => f kv.1 kv.2 a) b l
                     = foldr (uncurry f) b l).
  { induction l as [|[k v] l IH]; [done|]. simpl. by rewrite IH. }
  rewrite Hun, map_fold_foldr. symmetry.
  apply (foldr_permutation (=) (uncurry f)).
  - intros x ? ? ->. done.
  - intros j1 [k1 v1] j2 [k2 v2] a Hj H1 H2. simpl. apply Hcomm.
    intros <-. apply Hj.
    eapply (NoDup_lookup _ _ _ k1 (NoDup_fst_map_to_list m));
      rewrite list_lookup_fmap; [by rewrite H1|by rewrite H2].
  - by rewrite reverse_Permutation.
Qed.

Lemma visits_map_to_list (m : gmap string string) :
  Run.visits m (map_to_list m).
Proof. unfold Run.visits. reflexivity. Qed.

Lemma filterEmpty_step_comm k1 v1 k2 v2 (a : gmap string string) :
  k1 ≠ k2 →
  filterEmpty_step k1 v1 (filterEmpty_step k2 v2 a)
  = filterEmpty_step k2 v2 (filterEmpty_step k1 v1 a).
Proof.
  intros Hk. unfold filterEmpty_step.
  repeat case_bool_decide; try done. by apply insert_insert_ne.
Qed.

Lemma Run_filterEmpty_iff labels out :
  Run.filterEmpty labels out ↔ out = filterEmpty labels.
Proof.
  split.
  - destruct 1 as [|m order Horder]; [done|]. simpl. f_equal.
    by apply range_order_irrelevant; [apply filterEmpty_step_comm|].
  - intros ->. destruct labels as [m|]; [|constructor]. simpl.
    rewrite <- (range_order_irrelevant filterEmpty_step ∅ m (map_to_list m));
      [|apply filterEmpty_step_comm|apply visits_map_to_list].
    constructor. apply visits_map_to_list.
Qed.

Lemma Run_tagLabels_iff labels t out :
  Run.tagLabels labels t out ↔ out = tagLabels labels t.
Proof.
  assert (Hcomm : ∀ k1 v1 k2 v2 (a : gmap string string), k1 ≠ k2 →
            <[k1 := v1]> (<[k2 := v2]> a) = <[k2 := v2]> (<[k1 := v1]> a)).
  { intros. by apply insert_insert_ne. }
  split.
  - destruct 1 as [|m order t Horder]; [done|]. unfold tagLabels. f_equal.
    by apply (range_order_irrelevant (fun k v lt => <[k := v]> lt)).
  - intros ->. destruct labels as [m|]; [|constructor]. unfold tagLabels.
    rewrite <- (range_order_irrelevant (fun k v lt => <[k := v]> lt)
                  ∅ m (map_to_list m));
      [|done|apply visits_map_to_list].
    constructor. apply visits_map_to_list.
Qed.

Lemma Run_filterEmptyLabels_iff td td' :
  Run.filterEmptyLabels td td' ↔ td' = filterEmptyLabels td.
Proof.
  unfold Run.filterEmptyLabels, filterEmptyLabels. split.
  - intros (labels & ->%Run_filterEmpty_iff & ->). done.
  - intros ->. eexists. split; [by apply Run_filterEmpty_iff|done].
Qed.

Lemma Run_fanOut_iff target tags out :
  Run.fanOut target tags out ↔ out = fanOut target tags.
Proof.
  unfold Run.fanOut, fanOut. destruct tags as [|t ts]; [done|].
  generalize (t :: ts). clear t ts. intros tags. split.
  - induction 1 as [|t lt tags out (labels & ->%Run_tagLabels_iff & ->) _ IH];
      [done|]. simpl. by rewrite IH.
  - intros ->. induction tags as [|t tags IH]; constructor; [|done].
    eexists. split; [by apply Run_tagLabels_iff|done].
Qed.

Lemma Run_applyFilters_functional filters target t1 t2 :
  Forall Run.functional filters →
  Run.applyFilters filters target t1 → Run.applyFilters filters target t2 →
  t1 = t2.
Proof.
  intros Hfs H1. revert t2.
  induction H1 as [|f fs target target' target'' Hf _ IH]; intros t2 H2.
  - by inversion H2.
  - inversion H2 as [|f' fs' ? mid ? Hf' Hrest]; subst.
    apply Forall_cons in Hfs as [Hfun Hfs].
    rewrite <- (Hfun _ _ _ Hf Hf') in Hrest. by apply IH.
Qed.

Lemma Run_applyFilters_pure (filters : list filter) target :
  Run.applyFilters ((fun (f : filter) td td' => td' = f td) <$> filters)
    target (applyFilters filters target).
Proof.
  revert target. induction filters as [|f fs IH]; intros target.
  - constructor.
  - simpl. econstructor; [reflexivity|]. apply IH.
Qed.

Lemma Run_exportFilters_functional : Forall Run.functional Run.exportFilters.
Proof.
  repeat constructor.
  - intros td td1 td2 ->%Run_filterEmptyLabels_iff
      ->%Run_filterEmptyLabels_iff. done.
  - intros td td1 td2 -> ->. done.
Qed.

Lemma Run_translate_functional filters devices found1 found2 :
  Forall Run.functional filters →
  Run.translate filters devices found1 →
  Run.translate filters devices found2 →
  found1 = found2.
Proof.
  intros Hfs H1. revert found2.
  induction H1 as [|d ds target out found Ht Hout _ IH]; intros found2 H2.
  - by inversion H2.
  - inversion H2 as [|? ? target' out' found' Ht' Hout' Hrest]; subst.
    rewrite (Run_applyFilters_functional _ _ _ _ Hfs Ht' Ht) in Hout'.
    apply Run_fanOut_iff in Hout, Hout'. subst. f_equal. by apply IH.
Qed.

Lemma Run_translate_pure (filters : list filter) devices :
  Run.translate ((fun (f : filter) td td' => td' = f td) <$> filters)
    devices (translate devices filters).
Proof.
  induction devices as [|d ds IH]; [constructor|].
  rewrite translate_cons. econstructor; [apply Run_applyFilters_pure| |done].
  by apply Run_fanOut_iff.
Qed.

Lemma Run_translate_export devices :
  Run.translate Run.exportFilters devices (translate devices exportFilters).
Proof.
  induction devices as [|d ds IH]; [constructor|].
  rewrite translate_cons. econstructor; [|by apply Run_fanOut_iff|done].
  unfold Run.exportFilters, exportFilters, applyFilters. cbn [foldl].
  econstructor; [by apply Run_filterEmptyLabels_iff|].
  econstructor; [reflexivity|constructor].
Qed.

(** C8: [translate] gives the same output every time it is called with the
    same devices and filters: whatever order the runtime visits the maps
    in, two runs end with equal sequences of descriptors, and the output
    is the one the function [translate] computes. *)
Theorem translate_deterministic :
  (∀ filters devices found1 found2,
     Forall Run.functional filters →
     Run.translate filters devices found1 →
     Run.translate filters devices found2 →
     found1 = found2)
  ∧ Forall Run.functional Run.exportFilters
  ∧ (∀ devices found,
       Run.translate Run.exportFilters devices found
       ↔ found = translate devices exportFilters)
  ∧ (∀ (filters : list filter) devices,
       Run.translate ((fun (f : filter) td td' => td' = f td) <$> filters)
         devices (translate devices filters)).
Proof.
  split; [|split; [|split]].
  - apply Run_translate_functional.
  - apply Run_exportFilters_functional.
  - intros devices found. split.
    + intros Hrun.
      apply (Run_translate_functional Run.exportFilters devices);
        [apply Run_exportFilters_functional|done|apply Run_translate_export].
    + intros ->. apply Run_translate_export.
  - apply Run_translate_pure.
Qed.

Lemma translate_deterministic_witness :
  [filterIPv6Addresses
     {| Targets := ["100.64.0.1"];
        Labels := Some
          (foldl (fun filtered kv => filterEmpty_step kv.1 kv.2 filtered) ∅
             (reverse (map_to_list
                (list_to_map (fieldLabels (sampleDevice ["100.64.0.1"] []))
                 : gmap string string)))) |}]
  = translate [sampleDevice ["100.64.0.1"] []] exportFilters.
Proof.
  apply (proj1 translate_deterministic Run.exportFilters
           [sampleDevice ["100.64.0.1"] []]).
  - apply Run_exportFilters_functional.
  - refine (Run.translate_cons _ _ [] _ [_] [] _ _ (Run.translate_nil _));
      [|reflexivity].
    econstructor; [|econstructor; [reflexivity|constructor]].
    eexists. split; [|reflexivity]. constructor.
    unfold Run.visits. apply reverse_Permutation.
  - apply Run_translate_export.
Defined.

(** ** The discovery handler *)

(** C5: the handler answers 500 with a diagnostic body, and no JSON,
    exactly when [Devices] fails with an error other than
    [ErrStaleResults]; on [ErrStaleResults] or no error it answers 200 with
    the JSON of the translated devices and the content type
    [application/json].  The encoder is taken to succeed on the
    descriptors, as Go's does on strings, slices and maps of strings. *)
Theorem discovery_response (Encode : list TargetDescriptor → string + string)
    (h : discoveryHandler) :
  let out := response (ServeHTTP Encode h newWorld).2 in
  (match (Devices (ts h)).2 with
   | Some (UpstreamError text) =>
       rwCode out = 500
       ∧ rwBody out = "Failed to discover Tailscale devices: " +:+ text
       ∧ responseHeader out !! "Content-Type" = None
   | _ =>
       ∀ payload,
         Encode (translate (Devices (ts h)).1 (filters h)) = inl payload →
         rwCode out = 200
         ∧ rwBody out = payload
         ∧ responseHeader out !! "Content-Type" = Some ["application/json"]
   end)
  ∧ (∀ payload,
       Encode (translate (Devices (ts h)).1 (filters h)) = inl payload →
       (rwCode out = 500
        ↔ ∃ text, (Devices (ts h)).2 = Some (UpstreamError text))).
Proof.
  assert (Hserve : ∀ devices w payload,
    rwWroteHeader (response w) = false → rwCode (response w) = 200 →
    rwBody (response w) = "" → rwHeader (response w) = ∅ →
    Encode (translate devices (filters h)) = inl payload →
    let out := response (serveTargets Encode h devices w).2 in
    rwCode out = 200 ∧ rwBody out = payload
    ∧ responseHeader out !! "Content-Type" = Some ["application/json"]).
  { intros devices [r l] payload Hw Hc Hb Hh Henc. simpl in Hw, Hc, Hb, Hh.
    unfold serveTargets. rewrite Henc.
    destruct r as [hd wr code sent body]. simpl in Hw, Hc, Hb, Hh. subst.
    destruct payload as [|c payload]; by vm_compute. }
  unfold ServeHTTP. destruct (Devices (ts h)) as [devices err] eqn:Hdev.
  simpl. destruct err as [[|text]|].
  - split.
    + intros payload Henc. by apply (Hserve devices _ payload).
    + intros payload Henc. destruct (Hserve devices
        (logPrint "Serving potentially stale results" newWorld).2
        payload eq_refl eq_refl eq_refl eq_refl Henc) as (Hcode & _).
      split; [|by intros [? ?]]. intros H500. exfalso.
      change (rwCode (response (serveTargets Encode h devices
                (logPrint "Serving potentially stale results" newWorld).2).2)
              = 500) in H500.
      rewrite Hcode in H500. done.
  - split; [by vm_compute|]. intros payload _. split; [by eexists|].
    intros _. by vm_compute.
  - split.
    + intros payload Henc. by apply (Hserve devices _ payload).
    + intros payload Henc.
      destruct (Hserve devices newWorld payload
                  eq_refl eq_refl eq_refl eq_refl Henc) as (Hcode & _).
      split; [|by intros [? ?]]. intros H500. exfalso.
      change (rwCode (response (serveTargets Encode h devices newWorld).2)
              = 500) in H500.
      rewrite Hcode in H500. done.
Qed.

Lemma discovery_response_witness :
  let out :=
    response (ServeHTTP (fun _ => inl "null")
                (Export {| Devices := ([], Some ErrStaleResults) |})
                newWorld).2 in
  rwCode out = 200
  ∧ rwBody out = "null"
  ∧ responseHeader out !! "Content-Type" = Some ["application/json"].
Proof.
  apply (proj1 (discovery_response (fun _ => inl "null")
                  (Export {| Devices := ([], Some ErrStaleResults) |}))
           "null").
  reflexivity.
Defined.

(** The eight rounds [parseIPv6] is given are all the loop can take: more
    rounds change nothing. *)
Lemma parseIPv6_loop_rounds (n : nat) s (i : nat) ellipsis ip :
  (16 ≤ i + 2 * n)%nat →
  Net.parseIPv6_loop (S n) s i ellipsis ip
  = Net.parseIPv6_loop n s i ellipsis ip.
Proof.
  revert s i ellipsis ip.
  induction n as [|n IH]; intros s i ellipsis ip Hi.
  - cbn [Net.parseIPv6_loop].
    destruct (Nat.ltb_spec i 16) as [Hlt|_]; [lia|done].
  - set (more := Net.parseIPv6_loop (S (S n)) s i ellipsis ip).
    cbn [Net.parseIPv6_loop]. subst more.
    remember (S n) as n' eqn:Hn'. cbn [Net.parseIPv6_loop]. subst n'.
    destruct (Nat.ltb_spec i 16) as [Hlt|_]; [|done]. cbn [negb].
    repeat case_match; try done; apply IH; lia.
Qed.

Lemma parseIPv6_loop_eight (k : nat) s ellipsis ip :
  Net.parseIPv6_loop (8 + k) s 0 ellipsis ip
  = Net.parseIPv6_loop 8 s 0 ellipsis ip.
Proof.
  induction k as [|k IH]; [by rewrite Nat.add_0_r|].
  rewrite <- IH, Nat.add_succ_r. apply parseIPv6_loop_rounds. lia.
Qed.

(** * Further properties *)

(** ** The label filter on any descriptor *)

(** X1: [filterEmptyLabels] keeps exactly the labels whose key and value are
    both non-empty, with their values; it returns a nil map for a nil map
    and only then. *)
Theorem filterEmptyLabels_lookup (td : TargetDescriptor) :
  (Labels (filterEmptyLabels td) = None ↔ Labels td = None)
  ∧ ∀ k v, lookupLabel (filterEmptyLabels td) k = Some v
           ↔ lookupLabel td k = Some v ∧ k ≠ "" ∧ v ≠ "".
Proof.
  unfold lookupLabel. cbn [filterEmptyLabels Labels].
  destruct (Labels td) as [m|].
  - rewrite filterEmpty_Some. split; [done|]. intros k v.
    rewrite map_lookup_filter_Some. unfold kept. simpl. tauto.
  - simpl. split; [done|]. intros k v. split; [done|]. by intros [? _].
Qed.

(** X2: [filterEmptyLabels] only removes labels, and it returns the
    descriptor unchanged exactly when no label has an empty key or an empty
    value. *)
Theorem filterEmptyLabels_fixed (td : TargetDescriptor) :
  (∀ m, Labels td = Some m →
        ∃ m', Labels (filterEmptyLabels td) = Some m'
              ∧ m' ⊆ m ∧ (size m' ≤ size m)%nat)
  ∧ (filterEmptyLabels td = td
     ↔ ∀ k v, lookupLabel td k = Some v → k ≠ "" ∧ v ≠ "").
Proof.
  destruct td as [targets labels]. unfold filterEmptyLabels, lookupLabel.
  cbn [Targets Labels]. split.
  - intros m ->. rewrite filterEmpty_Some. eexists. split; [done|].
    split; [apply map_filter_subseteq|].
    apply map_subseteq_size, map_filter_subseteq.
  - destruct labels as [m|]; [|by split].
    rewrite filterEmpty_Some. split.
    + intros [= Hm] k v Hkv. rewrite <- Hm in Hkv.
      by apply map_lookup_filter_Some in Hkv as [_ ?].
    + intros Hall. do 2 f_equal. apply map_filter_id.
      intros k v Hkv. by apply Hall.
Qed.

Lemma filterEmptyLabels_fixed_witness :
  ∃ m', Labels (filterEmptyLabels
                  (baseTarget (sampleDevice ["100.64.0.1"] []))) = Some m'
        ∧ m' ⊆ list_to_map (fieldLabels (sampleDevice ["100.64.0.1"] []))
        ∧ (size m'
           ≤ size (list_to_map (fieldLabels (sampleDevice ["100.64.0.1"] []))
                   : gmap string string))%nat.
Proof.
  apply (proj1 (filterEmptyLabels_fixed
                  (baseTarget (sampleDevice ["100.64.0.1"] [])))).
  reflexivity.
Defined.

(** ** The two filters together *)

Lemma filterIPv6Addresses_idemp (td : TargetDescriptor) :
  filterIPv6Addresses (filterIPv6Addresses td) = filterIPv6Addresses td.
Proof.
  unfold filterIPv6Addresses at 1 3. f_equal.
  change (Targets (filterIPv6Addresses (filterIPv6Addresses td))
          = Targets (filterIPv6Addresses td)).
  rewrite !filterIPv6Addresses_Targets. apply omap_normalize_idemp.
Qed.

Lemma filterEmpty_idemp labels :
  filterEmpty (filterEmpty labels) = filterEmpty labels.
Proof.
  destruct labels as [m|]; [|done]. rewrite !filterEmpty_Some. f_equal.
  apply map_filter_id. by intros k v (_ & Hkept)%map_lookup_filter_Some.
Qed.

(** X3: the two filters of [Export] can run in either order, and running
    the pipeline on its own result changes nothing. *)
Theorem exportFilters_order_idempotent (td : TargetDescriptor) :
  applyFilters [filterIPv6Addresses; filterEmptyLabels] td
  = applyFilters exportFilters td
  ∧ applyFilters exportFilters (applyFilters exportFilters td)
    = applyFilters exportFilters td.
Proof.
  split; [reflexivity|].
  unfold applyFilters, exportFilters. cbn [foldl].
  change (filterEmptyLabels (filterIPv6Addresses (filterEmptyLabels td)))
    with (filterIPv6Addresses (filterEmptyLabels (filterEmptyLabels td))).
  rewrite filterIPv6Addresses_idemp. f_equal.
  unfold filterEmptyLabels. cbn [Targets Labels].
  by rewrite filterEmpty_idemp.
Qed.

(** ** The address filter on any descriptor *)

(** X4: [filterIPv6Addresses] works target by target and in order: the
    result for a list of targets is the results for its parts, one after
    the other; it never adds a target. *)
Theorem filterIPv6Addresses_app (l1 l2 : list string) labels :
  Targets (filterIPv6Addresses {| Targets := l1 ++ l2; Labels := labels |})
  = Targets (filterIPv6Addresses {| Targets := l1; Labels := labels |})
    ++ Targets (filterIPv6Addresses {| Targets := l2; Labels := labels |})
  ∧ (length (Targets (filterIPv6Addresses
                        {| Targets := l1; Labels := labels |}))
     ≤ length l1)%nat.
Proof.
  rewrite !filterIPv6Addresses_Targets. cbn [Targets]. split.
  - apply omap_app.
  - induction l1 as [|t l IH]; [done|]. cbn [omap list_omap].
    destruct (normalize t); cbn [length]; lia.
Qed.

(** X5: an IPv4 address in dotted decimal, four numbers from 0 to 255
    without leading zeros, passes [filterIPv6Addresses] as it is: a list of
    such targets is returned unchanged. *)
Theorem filterIPv6Addresses_keeps_dotted
    (quads : list (byte * byte * byte * byte)) labels :
  Targets (filterIPv6Addresses
             {| Targets := (fun q => Net.string4 q.1.1.1 q.1.1.2 q.1.2 q.2)
                             <$> quads;
                Labels := labels |})
  = (fun q => Net.string4 q.1.1.1 q.1.1.2 q.1.2 q.2) <$> quads.
Proof.
  rewrite filterIPv6Addresses_Targets. cbn [Targets].
  induction quads as [|[[[a b] c] d] quads IH]; [done|].
  cbn [fmap list_fmap omap list_omap fst snd].
  rewrite normalize_string4. f_equal. exact IH.
Qed.

(** ** Filters and the fan-out *)

Lemma applyFilters_snoc (filters : list filter) (f : filter) target :
  applyFilters (filters ++ [f]) target = f (applyFilters filters target).
Proof. unfold applyFilters. by rewrite foldl_app. Qed.

Lemma translate_fmap (f : filter) (filters : list filter) devices :
  (∀ d, d ∈ devices →
     fanOut (f (applyFilters filters (baseTarget d))) (Tags d)
     = f <$> fanOut (applyFilters filters (baseTarget d)) (Tags d)) →
  translate devices (filters ++ [f]) = f <$> translate devices filters.
Proof.
  induction devices as [|d ds IH]; intros Hfan; [done|].
  rewrite !translate_cons, applyFilters_snoc, fmap_app.
  rewrite Hfan by apply list_elem_of_here.
  rewrite IH; [done|]. intros d' Hd'. apply Hfan. by apply list_elem_of_further.
Qed.

(** X6: the address filter can run before the fan-out or after it:
    [translate] with [filterIPv6Addresses] as last filter gives what
    [translate] without it gives, with the filter applied to every
    descriptor. *)
Theorem translate_filterIPv6Addresses_last (devices : list Device)
    (filters : list filter) :
  translate devices (filters ++ [filterIPv6Addresses])
  = filterIPv6Addresses <$> translate devices filters.
Proof.
  apply translate_fmap. intros d _.
  destruct (Tags d) as [|t ts]; [done|].
  unfold fanOut. rewrite <- list_fmap_compose. by apply list_fmap_ext.
Qed.

Lemma tagLabels_filterEmpty labels t :
  t ≠ "" →
  filterEmpty (Some (tagLabels labels t))
  = Some (tagLabels (filterEmpty labels) t).
Proof.
  intros Ht. rewrite filterEmpty_Some, !tagLabels_insert. f_equal.
  rewrite map_filter_insert_True by done.
  destruct labels as [m|]; simpl.
  - by rewrite filterEmpty_fold.
  - by rewrite map_filter_empty.
Qed.

(** X7: when no tag of any device is the empty string, the label filter
    too can run before the fan-out or after it. *)
Theorem translate_filterEmptyLabels_last (devices : list Device)
    (filters : list filter) :
  Forall (fun d => "" ∉ Tags d) devices →
  translate devices (filters ++ [filterEmptyLabels])
  = filterEmptyLabels <$> translate devices filters.
Proof.
  intros Htags. apply translate_fmap. intros d Hd.
  rewrite Forall_forall in Htags. specialize (Htags d Hd).
  destruct (Tags d) as [|t ts]; [done|].
  unfold fanOut. rewrite <- list_fmap_compose. apply list_fmap_ext.
  intros i x Hx. unfold filterEmptyLabels, compose. cbn [Targets Labels].
  rewrite tagLabels_filterEmpty; [done|].
  intros ->. apply Htags. by eapply list_elem_of_lookup_2.
Qed.

Lemma translate_filterEmptyLabels_last_witness :
  translate [sampleDevice ["100.64.0.1"] ["tag:a"; "tag:b"]]
            ([filterIPv6Addresses] ++ [filterEmptyLabels])
  = filterEmptyLabels
      <$> translate [sampleDevice ["100.64.0.1"] ["tag:a"; "tag:b"]]
                    [filterIPv6Addresses].
Proof.
  apply (translate_filterEmptyLabels_last
           [sampleDevice ["100.64.0.1"] ["tag:a"; "tag:b"]]
           [filterIPv6Addresses]).
  repeat constructor; simpl; rewrite !elem_of_cons, elem_of_nil;
    intros [?|[?|[]]]; discriminate.
Defined.

(** X8: whatever the filters, the descriptors of one device differ in the
    tag label only: any two of them agree on every other label. *)
Theorem translate_labels_shared (d : Device) (filters : list filter) :
  Forall (fun td1 =>
    Forall (fun td2 =>
      ∀ k, k = LabelMetaDeviceTag ∨ lookupLabel td1 k = lookupLabel td2 k)
      (translate [d] filters))
    (translate [d] filters).
Proof.
  assert (Hall : Forall (fun td => ∀ k, k = LabelMetaDeviceTag
            ∨ lookupLabel td k
              = lookupLabel (applyFilters filters (baseTarget d)) k)
            (translate [d] filters)).
  { rewrite translate_one. destruct (Tags d) as [|t ts].
    - constructor; [|constructor]. intros k. by right.
    - apply fanOut_Forall; [by right|]. intros t' _ k.
      destruct (decide (k = LabelMetaDeviceTag)) as [->|Hk]; [by left|right].
      unfold lookupLabel at 1. cbn [Labels].
      by rewrite tagLabels_lookup_ne. }
  rewrite Forall_forall in Hall. apply Forall_forall. intros td1 H1.
  apply Forall_forall. intros td2 H2 k.
  destruct (Hall td1 H1 k) as [?|E1]; [by left|].
  destruct (Hall td2 H2 k) as [?|E2]; [by left|]. right. congruence.
Qed.

(** X9: with the filters of [Export], and with no filters, a descriptor
    has a tag label exactly when its device has tags. *)
Theorem translate_tag_label_iff_tagged (d : Device) :
  Forall (fun td => lookupLabel td LabelMetaDeviceTag = None ↔ Tags d = [])
         (translate [d] exportFilters)
  ∧ Forall (fun td => lookupLabel td LabelMetaDeviceTag = None ↔ Tags d = [])
           (translate [d] []).
Proof.
  assert (Hfan : ∀ target, lookupLabel target LabelMetaDeviceTag = None →
    Forall (fun td => lookupLabel td LabelMetaDeviceTag = None ↔ Tags d = [])
           (fanOut target (Tags d))).
  { intros target Hnone. destruct (Tags d) as [|t ts].
    - constructor; [|constructor]. by split.
    - apply Forall_fmap, Forall_forall. intros t' _. simpl.
      unfold lookupLabel. cbn [Labels]. by rewrite tagLabels_lookup_tag. }
  split; rewrite translate_one; apply Hfan.
  - rewrite exportFilters_base. unfold lookupLabel. cbn [Labels].
    apply map_lookup_filter_None. by left.
  - reflexivity.
Qed.

(** ** What every served descriptor has *)

Lemma filtered_base_dom (d : Device) :
  dom (base.filter kept (list_to_map (fieldLabels d) : gmap string string))
  ⊆ (list_to_set fixedLabels : gset string).
Proof.
  etrans; [apply dom_filter_subseteq|].
  rewrite dom_list_to_map_L. by rewrite fieldLabels_keys.
Qed.

Lemma filtered_base_authorized (d : Device) :
  base.filter kept (list_to_map (fieldLabels d) : gmap string string)
    !! LabelMetaDeviceAuthorized
  = Some (if Authorized d then "true" else "false").
Proof.
  apply map_lookup_filter_Some. split; [reflexivity|].
  split; [done|]. simpl. by destruct (Authorized d).
Qed.

(** X10: with the filters of [Export] the labels of a descriptor are among
    the eight field labels and the tag label, the label
    [__meta_tailscale_device_authorized] is always there, with value [true]
    or [false] as the device says, and so a descriptor has from one to nine
    labels. *)
Theorem translate_label_keys (d : Device) :
  Forall (fun td => ∃ m : gmap string string,
            Labels td = Some m
            ∧ dom m ⊆ list_to_set (LabelMetaDeviceTag :: fixedLabels)
            ∧ m !! LabelMetaDeviceAuthorized
              = Some (if Authorized d then "true" else "false")
            ∧ (1 ≤ size m ≤ 9)%nat)
         (translate [d] exportFilters).
Proof.
  assert (Hsize : ∀ m : gmap string string,
    dom m ⊆ list_to_set (LabelMetaDeviceTag :: fixedLabels) →
    is_Some (m !! LabelMetaDeviceAuthorized) → (1 ≤ size m ≤ 9)%nat).
  { intros m Hdom [v Hv]. split.
    - destruct (size m) eqn:Hs; [|lia].
      apply map_size_empty_inv in Hs. by rewrite Hs in Hv.
    - rewrite <- size_dom. etrans; [by apply subseteq_size|].
      by vm_compute. }
  rewrite translate_one, exportFilters_base. apply fanOut_Forall.
  - eexists. split; [reflexivity|].
    assert (Hdom : dom (base.filter kept
                          (list_to_map (fieldLabels d) : gmap string string))
                   ⊆ list_to_set (LabelMetaDeviceTag :: fixedLabels)).
    { etrans; [apply filtered_base_dom|].
      change (list_to_set (LabelMetaDeviceTag :: fixedLabels) : gset string)
        with ({[LabelMetaDeviceTag]} ∪ list_to_set fixedLabels : gset string).
      apply union_subseteq_r. }
    split; [done|]. split; [apply filtered_base_authorized|].
    apply Hsize; [done|]. rewrite filtered_base_authorized. by eexists.
  - intros t _. eexists. split; [reflexivity|]. cbn [Labels].
    rewrite tagLabels_Some.
    assert (Hdom : dom (<[LabelMetaDeviceTag := t]>
                          (base.filter kept
                             (list_to_map (fieldLabels d)
                              : gmap string string)))
                   ⊆ list_to_set (LabelMetaDeviceTag :: fixedLabels)).
    { rewrite dom_insert_L.
      change (list_to_set (LabelMetaDeviceTag :: fixedLabels) : gset string)
        with ({[LabelMetaDeviceTag]} ∪ list_to_set fixedLabels : gset string).
      apply union_mono_l, filtered_base_dom. }
    assert (Hauth : <[LabelMetaDeviceTag := t]>
                      (base.filter kept
                         (list_to_map (fieldLabels d) : gmap string string))
                      !! LabelMetaDeviceAuthorized
                    = Some (if Authorized d then "true" else "false")).
    { rewrite lookup_insert_ne by done. apply filtered_base_authorized. }
    split; [done|]. split; [done|].
    apply Hsize; [done|]. rewrite Hauth. by eexists.
Qed.

(** X11: [translate] never drops a device, whatever the filters do: there
    are at least as many descriptors as devices, and none only when there is
    no device. *)
Theorem translate_no_device_dropped (devices : list Device)
    (filters : list filter) :
  (length devices ≤ length (translate devices filters))%nat
  ∧ (translate devices filters = [] ↔ devices = []).
Proof.
  assert (Hlen : (length devices ≤ length (translate devices filters))%nat).
  { induction devices as [|d ds IH]; [done|].
    rewrite translate_cons, length_app, fanOut_length. simpl.
    destruct (Tags d); simpl; lia. }
  split; [done|]. split.
  - intros Hnil. rewrite Hnil in Hlen. by destruct devices; [|simpl in Hlen; lia].
  - by intros ->.
Qed.

(** ** The handler's other paths *)

(** X12: a stale result is served like a fresh one: for the same devices
    the response is the same with [ErrStaleResults] as with no error, and
    the log has one more line, the staleness notice, before whatever else
    is logged. *)
Theorem stale_served_like_fresh
    (Encode : list TargetDescriptor → string + string)
    (fs : list filter) (devices : list Device) (w : World) :
  let stale :=
    (ServeHTTP Encode
       {| ts := {| Devices := (devices, Some ErrStaleResults) |};
          filters := fs |} w).2 in
  let fresh :=
    (ServeHTTP Encode
       {| ts := {| Devices := (devices, None) |}; filters := fs |} w).2 in
  response stale = response fresh
  ∧ ∃ rest, logged fresh = logged w ++ rest
            ∧ logged stale
              = logged w ++ "Serving potentially stale results" :: rest.
Proof.
  destruct w as [r l]. unfold ServeHTTP, serveTargets. cbn [Devices ts filters].
  destruct (Encode (translate devices fs)) as [buf|text].
  - destruct buf as [|c buf]; (split; [reflexivity|]); exists [];
      (split; [cbn; by rewrite app_nil_r|reflexivity]).
  - split; [reflexivity|].
    exists ["Failed encoding targets to JSON: " +:+ text].
    split; [reflexivity|].
    transitivity ((l ++ ["Serving potentially stale results"])
                  ++ ["Failed encoding targets to JSON: " +:+ text]);
      [reflexivity|by rewrite <- app_assoc].
Qed.

(** X13: when [Devices] fails with an error other than [ErrStaleResults],
    nothing of the devices, the filters or the encoder reaches the
    response or the log: the handler logs the diagnostic line it sends as
    the body, and that is all. *)
Theorem hard_error_response
    (Encode1 Encode2 : list TargetDescriptor → string + string)
    (fs1 fs2 : list filter) (devices1 devices2 : list Device)
    (text : string) (w : World) :
  ServeHTTP Encode1
    {| ts := {| Devices := (devices1, Some (UpstreamError text)) |};
       filters := fs1 |} w
  = ServeHTTP Encode2
      {| ts := {| Devices := (devices2, Some (UpstreamError text)) |};
         filters := fs2 |} w
  ∧ logged (ServeHTTP Encode1
              {| ts := {| Devices := (devices1, Some (UpstreamError text)) |};
                 filters := fs1 |} w).2
    = logged w ++ ["Failed to discover Tailscale devices: " +:+ text]
  ∧ rwBody (response (ServeHTTP Encode1
              {| ts := {| Devices := (devices1, Some (UpstreamError text)) |};
                 filters := fs1 |} newWorld).2)
    = "Failed to discover Tailscale devices: " +:+ text.
Proof. destruct w as [r l]. repeat split. Qed.

(** X14: when the encoder fails on the descriptors, the handler answers
    500 with the encoder's error in the body, sends no content type and
    logs the same line, after the staleness notice if the devices were
    stale. *)
Theorem encode_failure_response
    (Encode : list TargetDescriptor → string + string)
    (fs : list filter) (devices : list Device) (stale : bool)
    (text : string) :
  Encode (translate devices fs) = inr text →
  let out :=
    (ServeHTTP Encode
       {| ts := {| Devices :=
                     (devices,
                      if stale then Some ErrStaleResults else None) |};
          filters := fs |} newWorld).2 in
  rwCode (response out) = 500
  ∧ rwBody (response out) = "Failed encoding targets to JSON: " +:+ text
  ∧ responseHeader (response out) !! "Content-Type" = None
  ∧ logged out
    = (if stale then ["Serving potentially stale results"] else [])
      ++ ["Failed encoding targets to JSON: " +:+ text].
Proof.
  intros Henc. unfold ServeHTTP, serveTargets. cbn [Devices ts filters].
  destruct stale; rewrite Henc; repeat split.
Qed.

Lemma encode_failure_response_witness :
  let out :=
    (ServeHTTP (fun _ => inr "unsupported value")
       {| ts := {| Devices := ([], Some ErrStaleResults) |};
          filters := exportFilters |} newWorld).2 in
  rwCode (response out) = 500
  ∧ rwBody (response out)
    = "Failed encoding targets to JSON: " +:+ "unsupported value"
  ∧ responseHeader (response out) !! "Content-Type" = None
  ∧ logged out
    = ["Serving potentially stale results"]
      ++ ["Failed encoding targets to JSON: " +:+ "unsupported value"].
Proof.
  apply (encode_failure_response (fun _ => inr "unsupported value")
           exportFilters [] true "unsupported value").
  reflexivity.
Defined.

(** X15: with the filters of [Export] every descriptor of a device has as
    targets the IPv4 addresses of the device in dotted decimal, in the
    order of the device's addresses, and nothing else: a target is there
    exactly when it is the dotted form of one of the addresses. *)
Theorem translate_targets (d : Device) :
  Forall (fun td =>
            Targets td = omap normalize (Addresses d)
            ∧ (length (Targets td) ≤ length (Addresses d))%nat
            ∧ ∀ s, s ∈ Targets td
                   ↔ ∃ t ip a b c d',
                       t ∈ Addresses d
                       ∧ Net.ParseIP t = Some ip
                       ∧ Net.To4 ip = Some [a; b; c; d']
                       ∧ s = Net.string4 a b c d')
         (translate [d] exportFilters).
Proof.
  assert (Hone : ∀ td, Targets td = omap normalize (Addresses d) →
    Targets td = omap normalize (Addresses d)
    ∧ (length (Targets td) ≤ length (Addresses d))%nat
    ∧ ∀ s, s ∈ Targets td
           ↔ ∃ t ip a b c d', t ∈ Addresses d
               ∧ Net.ParseIP t = Some ip
               ∧ Net.To4 ip = Some [a; b; c; d']
               ∧ s = Net.string4 a b c d').
  { intros td ->. split; [done|]. split.
    - induction (Addresses d) as [|t l IH]; [done|]. cbn [omap list_omap].
      destruct (normalize t); cbn [length]; lia.
    - intros s. rewrite list_elem_of_omap. split.
      + intros (t & Ht & Hs). unfold normalize in Hs.
        destruct (Net.ParseIP t) as [ip|] eqn:Hip; [|done].
        destruct (Net.To4 ip) as [ip4|] eqn:H4; [|done].
        destruct (To4_length _ _ H4) as (a & b & c & d' & ->).
        injection Hs as <-. by exists t, ip, a, b, c, d'.
      + intros (t & ip & a & b & c & d' & Ht & Hip & H4 & ->).
        exists t. split; [done|]. unfold normalize. by rewrite Hip, H4. }
  rewrite translate_one, exportFilters_base.
  apply fanOut_Forall; [by apply Hone|]. intros t _. by apply Hone.
Qed.
